(** * OCR field extraction (src/services/ocrService.ts)

    A shallow embedding of [OCRService]: the text normaliser, the
    per-field pattern cascade of [parseCertificateText], its fallback
    passes, [extractFromFormFields], [validateExtractedData] and the
    file-type gate of [extractText].

    JavaScript strings are sequences of UTF-16 code units; a code unit is
    modelled as an [N].  Regular expressions are modelled by a
    backtracking matcher in continuation-passing style that follows the
    ECMAScript pattern semantics (leftmost match, greedy quantifiers,
    ordered alternation). *)

From Stdlib Require Import String Ascii DecimalString.
From Stdlib Require Import NArith ZArith Arith Bool Btauto Lia List.
Import ListNotations.

Set Implicit Arguments.

(* ================================================================== *)
(** ** Strings of code units *)

Definition jschar := N.
Definition jsstring := list jschar.

Definition chr (a : ascii) : jschar := N_of_ascii a.

(** A string literal of the source, as code units. *)
Definition js (s : string) : jsstring := map chr (list_ascii_of_string s).

Definition in_range (lo hi c : jschar) : bool := (lo <=? c)%N && (c <=? hi)%N.
Arguments in_range (lo hi c)%_N_scope.

(** [\s]: WhiteSpace and LineTerminator code points of ECMAScript; also
    the set removed by [String.prototype.trim]. *)
Definition is_space (c : jschar) : bool :=
  in_range 9 13 c || (c =? 32)%N || (c =? 160)%N || (c =? 5760)%N
  || in_range 8192 8202 c || (c =? 8232)%N || (c =? 8233)%N
  || (c =? 8239)%N || (c =? 8287)%N || (c =? 12288)%N || (c =? 65279)%N.

Definition is_digit (c : jschar) : bool := in_range 48 57 c.
Definition is_upper (c : jschar) : bool := in_range 65 90 c.
Definition is_lower (c : jschar) : bool := in_range 97 122 c.

(** [\w] without the unicode flag: [A-Za-z0-9_]. *)
Definition is_word (c : jschar) : bool :=
  is_upper c || is_lower c || is_digit c || (c =? 95)%N.

(** Line terminators, the characters [.] does not match. *)
Definition is_line_terminator (c : jschar) : bool :=
  (c =? 10)%N || (c =? 13)%N || (c =? 8232)%N || (c =? 8233)%N.

Definition to_lower_char (c : jschar) : jschar := if is_upper c then (c + 32)%N else c.
Definition to_upper_char (c : jschar) : jschar := if is_lower c then (c - 32)%N else c.

(** [String.prototype.toLowerCase].  The source applies it to pieces of
    the cleaned text and to pattern literals, which hold ASCII code units
    only (lemma [cleanedText_ascii] below); on those the Unicode mapping is
    the ASCII one. *)
Definition toLowerCase (s : jsstring) : jsstring := map to_lower_char s.

Fixpoint jseqb (a b : jsstring) : bool :=
  match a, b with
  | [], [] => true
  | x :: a', y :: b' => (x =? y)%N && jseqb a' b'
  | _, _ => false
  end.

Fixpoint starts_with (p s : jsstring) : bool :=
  match p, s with
  | [], _ => true
  | x :: p', y :: s' => (x =? y)%N && starts_with p' s'
  | _ :: _, [] => false
  end.

(** [s.includes(p)]. *)
Fixpoint includes (s p : jsstring) : bool :=
  starts_with p s ||
  match s with
  | [] => false
  | _ :: s' => includes s' p
  end.

Fixpoint drop_while (p : jschar -> bool) (s : jsstring) : jsstring :=
  match s with
  | [] => []
  | c :: s' => if p c then drop_while p s' else s
  end.

(** [String.prototype.trim]. *)
Definition trim (s : jsstring) : jsstring :=
  rev (drop_while is_space (rev (drop_while is_space s))).

(** [s.split(sep)] for a one-character string separator. *)
Fixpoint split_on (sep : jschar) (cur : jsstring) (s : jsstring) : list jsstring :=
  match s with
  | [] => [cur]
  | c :: s' => if (c =? sep)%N then cur :: split_on sep [] s'
               else split_on sep (cur ++ [c]) s'
  end.

Definition split_char (sep : jschar) (s : jsstring) : list jsstring := split_on sep [] s.

(** [arr.join(sep)]. *)
Fixpoint join (sep : jsstring) (l : list jsstring) : jsstring :=
  match l with
  | [] => []
  | [x] => x
  | x :: l' => x ++ sep ++ join sep l'
  end.

(** [String(n)] for a non-negative integer. *)
Definition String_of_nat (n : nat) : jsstring :=
  js (NilZero.string_of_uint (Nat.to_uint n)).

(** [s.padStart(n, fill)] with a one-character fill. *)
Definition padStart (n : nat) (fill : jschar) (s : jsstring) : jsstring :=
  repeat fill (n - length s) ++ s.

(** [arr.findIndex(p)]; [None] stands for [-1]. *)
Fixpoint findIndex {A} (p : A -> bool) (l : list A) : option nat :=
  match l with
  | [] => None
  | x :: l' => if p x then Some 0 else option_map S (findIndex p l')
  end.

(* ================================================================== *)
(** ** Regular expressions *)

Module Regex.

Inductive ClassAtom :=
| CChar (c : jschar)
| CRange (lo hi : jschar)
| CSpace          (* \s *)
| CWord           (* \w *)
| CDigit.         (* \d *)

Inductive regex :=
| Empty
| Char (c : jschar)
| Dot
| Class (invert : bool) (atoms : list ClassAtom)
| Seq (r1 r2 : regex)
| Alt (r1 r2 : regex)
| Rep (r : regex) (min : nat) (max : option nat)    (* greedy {min,max} *)
| Group (n : nat) (r : regex)                       (* capture group n *)
| NegLookahead (r : regex)
| AssertStart                                       (* ^ *)
| AssertEnd.                                        (* $ *)

Record RegExp := { source : regex; ignoreCase : bool }.

(** Canonicalize of the non-unicode ignoreCase mode.  A code unit above
    127 never canonicalizes to an ASCII one, and every literal and class
    range of the patterns below is ASCII, so the ASCII upper-casing is
    the whole of it here. *)
Definition canonicalize (ic : bool) (c : jschar) : jschar :=
  if ic then to_upper_char c else c.

Definition atom_has (a : ClassAtom) (c : jschar) : bool :=
  match a with
  | CChar d => (c =? d)%N
  | CRange lo hi => in_range lo hi c
  | CSpace => is_space c
  | CWord => is_word c
  | CDigit => is_digit c
  end.

(** A class atom matches [c] when one of its members canonicalizes to
    the canonical form of [c]; under ignoreCase the members worth trying
    are [c] and its two ASCII case variants. *)
Definition atom_matches (ic : bool) (a : ClassAtom) (c : jschar) : bool :=
  atom_has a c ||
  (ic && (atom_has a (to_upper_char c) || atom_has a (to_lower_char c))).

Definition class_matches (ic invert : bool) (atoms : list ClassAtom) (c : jschar) : bool :=
  xorb invert (existsb (fun a => atom_matches ic a c) atoms).

Record MatchState := {
  endIndex : nat;
  rest : jsstring;                       (* input from endIndex on *)
  captures : list (nat * jsstring)
}.

Definition MatchResult := option MatchState.
Definition Continuation := MatchState -> MatchResult.
Definition Matcher := MatchState -> Continuation -> MatchResult.

Definition advance (x : MatchState) (tl : jsstring) : MatchState :=
  {| endIndex := S (endIndex x); rest := tl; captures := captures x |}.

Definition set_capture (n : nat) (v : jsstring) (x : MatchState) : MatchState :=
  {| endIndex := endIndex x; rest := rest x; captures := (n, v) :: captures x |}.

Definition clear_captures (gs : list nat) (x : MatchState) : MatchState :=
  {| endIndex := endIndex x; rest := rest x;
     captures := filter (fun p => negb (existsb (Nat.eqb (fst p)) gs)) (captures x) |}.

Fixpoint groups (r : regex) : list nat :=
  match r with
  | Seq r1 r2 | Alt r1 r2 => groups r1 ++ groups r2
  | Rep r1 _ _ | NegLookahead r1 => groups r1
  | Group n r1 => n :: groups r1
  | _ => []
  end.

Definition dec_max (max : option nat) : option nat := option_map pred max.

Definition max_is_zero (max : option nat) : bool :=
  match max with Some 0 => true | _ => false end.

(** RepeatMatcher with min = 0.  An iteration that consumes nothing is
    rejected, so over a remaining input of [fuel] characters at most
    [fuel] iterations succeed; with none left the quantifier is done
    (lemma [repeat_opt_bound_irrelevant]: a larger bound changes nothing). *)
Fixpoint repeat_opt (mm : Matcher) (gs : list nat) (max : option nat) (fuel : nat)
         (x : MatchState) (c : Continuation) : MatchResult :=
  if max_is_zero max then c x else
  match fuel with
  | 0 => c x
  | S fuel' =>
      match mm (clear_captures gs x)
               (fun y => if endIndex y =? endIndex x then None
                         else repeat_opt mm gs (dec_max max) fuel' y c) with
      | Some z => Some z
      | None => c x
      end
  end.

(** RepeatMatcher while min > 0; a quantifier has min <= max (anything
    else is a syntax error), so max is not exhausted here. *)
Fixpoint repeat_min (mm : Matcher) (gs : list nat) (min : nat) (max : option nat)
         (x : MatchState) (c : Continuation) : MatchResult :=
  match min with
  | 0 => repeat_opt mm gs max (length (rest x)) x c
  | S min' =>
      mm (clear_captures gs x) (fun y => repeat_min mm gs min' (dec_max max) y c)
  end.

Fixpoint m (ic : bool) (r : regex) (x : MatchState) (c : Continuation) {struct r} : MatchResult :=
  match r with
  | Empty => c x
  | Char d =>
      match rest x with
      | ch :: tl => if (canonicalize ic ch =? canonicalize ic d)%N then c (advance x tl) else None
      | [] => None
      end
  | Dot =>
      match rest x with
      | ch :: tl => if is_line_terminator ch then None else c (advance x tl)
      | [] => None
      end
  | Class inv atoms =>
      match rest x with
      | ch :: tl => if class_matches ic inv atoms ch then c (advance x tl) else None
      | [] => None
      end
  | Seq r1 r2 => m ic r1 x (fun y => m ic r2 y c)
  | Alt r1 r2 =>
      match m ic r1 x c with
      | Some z => Some z
      | None => m ic r2 x c
      end
  | Rep r1 min max => repeat_min (m ic r1) (groups r1) min max x c
  | Group n r1 =>
      m ic r1 x (fun y => c (set_capture n (firstn (endIndex y - endIndex x) (rest x)) y))
  | NegLookahead r1 =>
      match m ic r1 x Some with
      | Some _ => None
      | None => c x
      end
  | AssertStart => if endIndex x =? 0 then c x else None
  | AssertEnd => match rest x with [] => c x | _ => None end
  end.

(** The array returned by [exec]/[match]: [whole] is element 0. *)
Record MatchArray := {
  index : nat;
  whole : jsstring;
  groupsOf : list (nat * jsstring)
}.

Fixpoint lookup (n : nat) (l : list (nat * jsstring)) : option jsstring :=
  match l with
  | [] => None
  | (k, v) :: l' => if k =? n then Some v else lookup n l'
  end.

(** [match[n]]; [None] is [undefined]. *)
Definition group (n : nat) (ma : MatchArray) : option jsstring := lookup n (groupsOf ma).

Definition match_at (re : RegExp) (i : nat) (s : jsstring) : MatchResult :=
  m (ignoreCase re) (source re) {| endIndex := i; rest := s; captures := [] |} Some.

(** [exec] of a non-global expression: the leftmost start index with a match. *)
Fixpoint exec_from (re : RegExp) (i : nat) (s : jsstring) : option MatchArray :=
  match match_at re i s with
  | Some y => Some {| index := i; whole := firstn (endIndex y - i) s; groupsOf := captures y |}
  | None =>
      match s with
      | [] => None
      | _ :: s' => exec_from re (S i) s'
      end
  end.

(** [s.match(re)] for a non-global [re]. *)
Definition str_match (s : jsstring) (re : RegExp) : option MatchArray := exec_from re 0 s.

(** [re.test(s)]. *)
Definition test (re : RegExp) (s : jsstring) : bool :=
  match str_match s re with Some _ => true | None => false end.

(** [s.replace(re, by)] for a non-global [re] and a replacement without [$]. *)
Definition replace (re : RegExp) (by_ : jsstring) (s : jsstring) : jsstring :=
  match str_match s re with
  | None => s
  | Some ma => firstn (index ma) s ++ by_ ++ skipn (index ma + length (whole ma)) s
  end.

(** [s.replace(re, by)] for a global [re]: every match, left to right, the
    search resuming where the previous match ended (one further after an
    empty match).  [skip] counts the characters of the current match that
    are still to be passed over. *)
Fixpoint replace_go (re : RegExp) (by_ : jsstring) (i skip : nat) (s : jsstring) : jsstring :=
  match skip with
  | S k =>
      match s with
      | [] => []
      | _ :: s' => replace_go re by_ (S i) k s'
      end
  | 0 =>
      match match_at re i s with
      | Some y =>
          by_ ++
          match s with
          | [] => []
          | ch :: s' =>
              if endIndex y =? i then ch :: replace_go re by_ (S i) 0 s'
              else replace_go re by_ (S i) (endIndex y - i - 1) s'
          end
      | None =>
          match s with
          | [] => []
          | ch :: s' => ch :: replace_go re by_ (S i) 0 s'
          end
      end
  end.

Definition replace_all (re : RegExp) (by_ : jsstring) (s : jsstring) : jsstring :=
  replace_go re by_ 0 0 s.

(** [s.split(re)] for an expression without capture groups. *)
Fixpoint split_go (re : RegExp) (q skip : nat) (cur : jsstring) (s : jsstring) : list jsstring :=
  match s with
  | [] => [cur]
  | ch :: s' =>
      match skip with
      | S k => split_go re (S q) k cur s'
      | 0 =>
          match match_at re q s with
          | None => split_go re (S q) 0 (cur ++ [ch]) s'
          | Some y =>
              if endIndex y =? q then
                match cur with
                | [] => split_go re (S q) 0 [ch] s'
                | _ => cur :: split_go re (S q) 0 [ch] s'
                end
              else cur :: split_go re (S q) (endIndex y - q - 1) [] s'
          end
      end
  end.

Definition split (re : RegExp) (s : jsstring) : list jsstring :=
  match s with
  | [] => match match_at re 0 [] with Some _ => [] | None => [[]] end
  | _ => split_go re 0 0 [] s
  end.

(** *** Pattern syntax helpers *)

Definition lit (s : string) : regex :=
  fold_right (fun a r => Seq (Char (chr a)) r) Empty (list_ascii_of_string s).

Fixpoint alts (l : list regex) : regex :=
  match l with
  | [] => Class false []
  | [r] => r
  | r :: l' => Alt r (alts l')
  end.

Fixpoint seqs (l : list regex) : regex :=
  match l with
  | [] => Empty
  | [r] => r
  | r :: l' => Seq r (seqs l')
  end.

Definition words (l : list string) : regex := alts (map lit l).

Definition star (r : regex) := Rep r 0 None.
Definition plus (r : regex) := Rep r 1 None.
Definition opt (r : regex) := Rep r 0 (Some 1).
Definition between (r : regex) (lo hi : nat) := Rep r lo (Some hi).
Definition at_least (r : regex) (lo : nat) := Rep r lo None.

Definition c_ (a : ascii) : ClassAtom := CChar (chr a).
Definition r_ (a b : ascii) : ClassAtom := CRange (chr a) (chr b).

Definition re (r : regex) : RegExp := {| source := r; ignoreCase := false |}.
Definition re_i (r : regex) : RegExp := {| source := r; ignoreCase := true |}.

End Regex.

Import Regex.

(* ================================================================== *)
(** ** The ParsedData record *)

Record ParsedData := {
  studentName : option jsstring;
  studentRoll : option jsstring;
  certificateNumber : option jsstring;
  institutionName : option jsstring;
  courseName : option jsstring;
  marks : option jsstring;
  dateIssued : option jsstring;
  uin : option jsstring
}.

(** The keys of ParsedData, for the code that indexes the record by name. *)
Inductive Field :=
| FStudentName | FStudentRoll | FCertificateNumber | FInstitutionName
| FCourseName | FMarks | FDateIssued | FUin.

Definition field_eqb (f g : Field) : bool :=
  match f, g with
  | FStudentName, FStudentName | FStudentRoll, FStudentRoll
  | FCertificateNumber, FCertificateNumber | FInstitutionName, FInstitutionName
  | FCourseName, FCourseName | FMarks, FMarks | FDateIssued, FDateIssued
  | FUin, FUin => true
  | _, _ => false
  end.

(** [{}] *)
Definition empty_data : ParsedData :=
  {| studentName := None; studentRoll := None; certificateNumber := None;
     institutionName := None; courseName := None; marks := None;
     dateIssued := None; uin := None |}.

(** [extracted[field]] *)
Definition get_field (f : Field) (e : ParsedData) : option jsstring :=
  match f with
  | FStudentName => studentName e
  | FStudentRoll => studentRoll e
  | FCertificateNumber => certificateNumber e
  | FInstitutionName => institutionName e
  | FCourseName => courseName e
  | FMarks => marks e
  | FDateIssued => dateIssued e
  | FUin => uin e
  end.

(** [extracted[field] = v] *)
Definition set_field (f : Field) (v : option jsstring) (e : ParsedData) : ParsedData :=
  {| studentName := if field_eqb f FStudentName then v else studentName e;
     studentRoll := if field_eqb f FStudentRoll then v else studentRoll e;
     certificateNumber := if field_eqb f FCertificateNumber then v else certificateNumber e;
     institutionName := if field_eqb f FInstitutionName then v else institutionName e;
     courseName := if field_eqb f FCourseName then v else courseName e;
     marks := if field_eqb f FMarks then v else marks e;
     dateIssued := if field_eqb f FDateIssued then v else dateIssued e;
     uin := if field_eqb f FUin then v else uin e |}.

(** Truthiness of an optional string: [undefined] and [''] are falsy. *)
Definition truthy (v : option jsstring) : bool :=
  match v with
  | Some (_ :: _) => true
  | _ => false
  end.

(* ================================================================== *)
(** ** Pattern tables of parseCertificateText *)

Definition cls := Class false.
Definition ncls := Class true.

Definition A_Z := r_ "A" "Z".
Definition a_z := r_ "a" "z".
Definition d0_9 := r_ "0" "9".

(** [[\s:]] *)
Definition sp_colon := cls [CSpace; c_ ":"].
(** [[.\s:]] *)
Definition dot_sp_colon := cls [c_ "."; CSpace; c_ ":"].
(** [[:\s]] *)
Definition colon_sp := cls [c_ ":"; CSpace].
(** [[A-Za-z\s]] *)
Definition alpha_sp := cls [A_Z; a_z; CSpace].
(** [[A-Z\s]] *)
Definition upper_sp := cls [A_Z; CSpace].
(** [[A-Z0-9\-]] *)
Definition alnum_dash := cls [A_Z; d0_9; c_ "-"].
(** [[A-Z0-9]] *)
Definition alnum := cls [A_Z; d0_9].
(** [[A-Za-z\s&.,]] *)
Definition alpha_punct := cls [A_Z; a_z; CSpace; c_ "&"; c_ "."; c_ ","].
(** [[0-9\/\-\.]] *)
Definition date_chars := cls [d0_9; c_ "/"; c_ "-"; c_ "."].
(** [[\/\-\.]] *)
Definition date_sep := cls [c_ "/"; c_ "-"; c_ "."].
Definition digit := cls [d0_9].
Definition upper := cls [A_Z].
Definition lower := cls [a_z].
Definition space := cls [CSpace].

(** [(?:\([^)]+\))] *)
Definition paren_note := seqs [lit "("; plus (ncls [c_ ")"]); lit ")"].

(** [(?:mr\.|ms\.|mrs\.)] *)
Definition honorific := words ["mr."; "ms."; "mrs."]%string.

Definition months := words
  ["june"; "july"; "august"; "september"; "october"; "november"; "december";
   "january"; "february"; "march"; "april"; "may"]%string.

Definition surnames_short := words
  ["PATIL"; "SINGH"; "KUMAR"; "SHARMA"; "GUPTA"; "VERMA"; "YADAV"; "AHMED";
   "KHAN"; "ALI"]%string.

Definition surnames := words
  ["PATIL"; "SINGH"; "KUMAR"; "SHARMA"; "GUPTA"; "VERMA"; "YADAV"; "AHMED";
   "KHAN"; "ALI"; "JOSHI"; "MISHRA"; "TIWARI"; "MALIK"; "CHAUHAN"; "AGARWAL";
   "JAIN"; "MEHTA"; "BANSAL"; "GOEL"; "ARORA"; "KAPOOR"; "REDDY"; "RAO";
   "NAIDU"; "VENKAT"; "KRISHNA"; "RAM"; "LAKSHMI"; "DEVI"; "KUMARI"]%string.

Definition studentName_patterns : list RegExp :=
  [ re_i (seqs [words ["name"; "student"; "candidate"]%string; star sp_colon;
                Group 1 (Seq (plus alpha_sp) (opt paren_note))]);
    re_i (seqs [words ["this is to certify that"; "certify that"]%string; plus space;
                Group 1 (plus alpha_sp)]);
    re_i (seqs [honorific; star space;
                Group 1 (Seq (plus alpha_sp) (opt paren_note))]);
    re_i (seqs [Alt (seqs [lit "student"; star space; lit "name"]) (lit "name");
                star sp_colon;
                Group 1 (seqs [upper; plus alpha_sp; surnames])]);
    re (Group 1 (seqs [upper; plus lower; plus space; upper; plus lower; plus space;
                       upper; plus lower;
                       star (seqs [plus space; upper; plus lower])]));
    re_i (seqs [NegLookahead
                  (Seq (star Dot)
                       (words ["institute"; "college"; "university"; "technology";
                               "school"; "academy"]%string));
                Group 1 (seqs [upper; plus alpha_sp; surnames_short])]) ].

Definition studentRoll_patterns : list RegExp :=
  [ re_i (seqs [words ["roll"; "reg"; "registration"]%string; star sp_colon; lit "no";
                star dot_sp_colon; Group 1 (plus alnum_dash)]);
    re_i (seqs [words ["roll"; "reg"; "registration"]%string; star sp_colon;
                Group 1 (plus alnum_dash)]);
    re_i (seqs [lit "roll"; star sp_colon; lit "no"; star dot_sp_colon;
                Group 1 (plus alnum_dash)]);
    re (Group 1 (between alnum 8 12)) ].

Definition certificateNumber_patterns : list RegExp :=
  [ re_i (seqs [words ["certificate"; "cert"; "degree"; "receipt"]%string; star sp_colon;
                lit "no"; star dot_sp_colon; Group 1 (plus alnum_dash)]);
    re_i (seqs [lit "certificate"; star sp_colon; lit "number"; star sp_colon;
                Group 1 (plus alnum_dash)]);
    re_i (seqs [words ["certificate"; "cert"]%string; star sp_colon;
                Group 1 (plus alnum_dash)]);
    re_i (seqs [lit "receipt"; star sp_colon; lit "no"; star dot_sp_colon;
                Group 1 (plus alnum_dash)]);
    re (Group 1 (at_least digit 6)) ].

Definition institution_keywords := words ["university"; "college"; "institute"; "school"]%string.

Definition institutionName_patterns : list RegExp :=
  [ re_i (seqs [institution_keywords; star sp_colon; Group 1 (plus alpha_punct)]);
    re_i (Group 1 (seqs [upper; plus alpha_punct; institution_keywords]));
    re_i (seqs [words ["awarded by"; "issued by"]%string; star sp_colon;
                Group 1 (plus alpha_punct)]);
    re_i (seqs [lit "vidyalankar"; star (cls [CSpace; CWord]); lit "institute"]);
    re_i (Group 1 (seqs [upper; plus alpha_sp;
                         words ["TECHNOLOGY"; "ENGINEERING"; "COLLEGE"; "UNIVERSITY"]%string])) ].

Definition courseName_patterns : list RegExp :=
  [ re_i (seqs [words ["course"; "degree"; "program"]%string; star sp_colon;
                Group 1 (plus alpha_punct)]);
    re_i (seqs [words ["bachelor"; "master"; "diploma"]%string; star sp_colon; lit "of";
                star sp_colon; Group 1 (plus alpha_punct)]);
    re_i (seqs [words ["in"; "for"]%string; star sp_colon; Group 1 (plus alpha_punct)]);
    re_i (seqs [words ["computer"; "mechanical"; "electrical"; "civil"; "electronics"]%string;
                star space; words ["engineering"; "science"]%string]);
    re_i (seqs [words ["undergraduate"; "graduate"]%string; star sp_colon;
                Group 1 (plus alpha_punct)]) ].

Definition marks_patterns : list RegExp :=
  [ re_i (seqs [words ["marks"; "grade"; "cgpa"; "percentage"]%string; star sp_colon;
                Group 1 (plus (cls [d0_9; c_ "."]))]);
    re (seqs [Group 1 (plus (cls [d0_9; c_ "."])); star space;
              words ["out of"; "/"; "%"]%string]);
    re_i (seqs [words ["secured"; "obtained"]%string; star sp_colon;
                Group 1 (plus (cls [d0_9; c_ "."]))]);
    re_i (seqs [lit "total"; star sp_colon; Group 1 (plus (cls [d0_9; c_ ","]))]);
    re (Group 1 (seqs [plus digit; cls [c_ "."; c_ ","]; plus digit])) ].

(** [(?:june|...|may)\s+([0-9]{1,2}),\s+([0-9]{4})], the "June 27, 2025" pattern. *)
Definition month_day_comma_year : RegExp :=
  re_i (seqs [months; plus space; Group 1 (between digit 1 2); lit ","; plus space;
              Group 2 (between digit 4 4)]).

(** [(?:june|...|may)[\s,]*([0-9]{1,2}[,\s]*[0-9]{4})] *)
Definition month_then_day_year : RegExp :=
  re_i (seqs [months; star (cls [CSpace; c_ ","]);
              Group 1 (seqs [between digit 1 2; star (cls [c_ ","; CSpace]);
                             between digit 4 4])]).

(** [([0-9]{1,2})\s+(?:june|...|may)\s+([0-9]{4})] *)
Definition day_month_year : RegExp :=
  re_i (seqs [Group 1 (between digit 1 2); plus space; months; plus space;
              Group 2 (between digit 4 4)]).

Definition dateIssued_patterns : list RegExp :=
  [ re_i (seqs [words ["date"; "issued"; "awarded"]%string; star sp_colon;
                Group 1 (plus date_chars)]);
    re (Group 1 (seqs [between digit 1 2; date_sep; between digit 1 2; date_sep;
                       between digit 2 4]));
    re_i (seqs [lit "on"; star sp_colon; Group 1 (plus date_chars)]);
    month_then_day_year;
    re (Group 1 (between digit 4 4));
    re_i (seqs [months; plus space; Group 1 (between digit 1 2); opt (lit ",");
                plus space; Group 2 (between digit 4 4)]);
    day_month_year;
    month_day_comma_year ].

Definition uin_patterns : list RegExp :=
  [ re_i (seqs [words ["uin"; "unique identification number"]%string; star sp_colon;
                Group 1 (plus alnum_dash)]);
    re_i (seqs [words ["unique id"; "id"]%string; star sp_colon; Group 1 (plus alnum_dash)]);
    re (Group 1 (at_least alnum 8)) ].

(** [Object.entries(patterns)], in insertion order. *)
Definition patterns : list (Field * list RegExp) :=
  [ (FStudentName, studentName_patterns);
    (FStudentRoll, studentRoll_patterns);
    (FCertificateNumber, certificateNumber_patterns);
    (FInstitutionName, institutionName_patterns);
    (FCourseName, courseName_patterns);
    (FMarks, marks_patterns);
    (FDateIssued, dateIssued_patterns);
    (FUin, uin_patterns) ].

(* ================================================================== *)
(** ** parseCertificateText *)

(** [[^\w\s\-.,\/:()]] with the global flag. *)
Definition special_chars : RegExp :=
  re (ncls [CWord; CSpace; c_ "-"; c_ "."; c_ ","; c_ "/"; c_ ":"; c_ "("; c_ ")"]).

(** [\s+] with the global flag. *)
Definition whitespace_run : RegExp := re (plus space).

Definition cleanedText (text : jsstring) : jsstring :=
  trim (replace_all whitespace_run (js " ") (replace_all special_chars (js " ") text)).

Definition lines_of (cleaned : jsstring) : list jsstring :=
  filter (fun line => 0 <? length line) (map trim (split_char (chr "010") cleaned)).

Definition institutionWords : list jsstring :=
  map js ["institute"; "college"; "university"; "technology"; "school"; "academy";
          "vidyalankar"; "engineering"]%string.

(** [value.split(' ').filter(word => !institutionWords.some(inst =>
      word.toLowerCase().includes(inst.toLowerCase()))).join(' ').trim()] *)
Definition dropInstitutionWords (value : jsstring) : jsstring :=
  let words := filter
    (fun word => negb (existsb (fun inst => includes (toLowerCase word) (toLowerCase inst))
                              institutionWords))
    (split_char (chr " ") value) in
  trim (join (js " ") words).

Definition monthNames : list jsstring :=
  map js ["january"; "february"; "march"; "april"; "may"; "june"; "july"; "august";
          "september"; "october"; "november"; "december"]%string.

(** [`${day}/${String(monthIndex + 1).padStart(2, '0')}/${year}`] *)
Definition formatDate (day : jsstring) (monthIndex : nat) (year : jsstring) : jsstring :=
  day ++ js "/" ++ padStart 2 (chr "0") (String_of_nat (monthIndex + 1)) ++ js "/" ++ year.

Definition non_digits : RegExp := re (ncls [CDigit]).

(** The per-field clean-up of a captured value (lines 194-225). *)
Definition cleanValue (field : Field) (value : jsstring) : jsstring :=
  match field with
  | FStudentName =>
      let value := trim (replace (re (seqs [lit "("; star (ncls [c_ ")"]); lit ")"; AssertEnd]))
                                 [] value) in
      let value := replace (re_i (seqs [AssertStart; Group 1 honorific; star space])) [] value in
      dropInstitutionWords value
  | FDateIssued =>
      if includes value (js ",") then
        let parts := split (re (plus (cls [CSpace; c_ ","]))) (toLowerCase value) in
        match parts with
        | p0 :: p1 :: p2 :: _ =>
            match findIndex (fun month => includes p0 month) monthNames with
            | Some monthIndex =>
                let day := replace_all non_digits [] p1 in
                let year := replace_all non_digits [] p2 in
                formatDate day monthIndex year
            | None => value
            end
        | _ => value
        end
      else replace_all (re (ncls [CDigit; c_ "/"; c_ "-"; c_ "."])) [] value
  | FMarks => replace_all (re (ncls [CDigit; c_ "."])) [] value
  | FStudentRoll | FCertificateNumber =>
      replace_all (re (ncls [A_Z; d0_9; c_ "-"])) [] value
  | _ => value
  end.

(** [match && match[1] && match[1].trim().length > 2], giving the trimmed group. *)
Definition usable_group (mt : option MatchArray) : option jsstring :=
  match mt with
  | Some ma =>
      if truthy (group 1 ma) then
        match group 1 ma with
        | Some g => if 2 <? length (trim g) then Some (trim g) else None
        | None => None
        end
      else None
  | None => None
  end.

(** The innermost loop (lines 188-232): the first pattern whose cleaned
    value is non-empty. *)
Fixpoint try_patterns (field : Field) (line : jsstring) (fieldPatterns : list RegExp)
  : option jsstring :=
  match fieldPatterns with
  | [] => None
  | pattern :: more =>
      match usable_group (str_match line pattern) with
      | Some value =>
          let value := cleanValue field value in
          if 0 <? length value then Some value else try_patterns field line more
      | None => try_patterns field line more
      end
  end.

(** The loop over lines (lines 187-234), left as soon as the field is set. *)
Fixpoint try_lines (field : Field) (lines : list jsstring) (fieldPatterns : list RegExp)
  : option jsstring :=
  match lines with
  | [] => None
  | line :: more =>
      match try_patterns field line fieldPatterns with
      | Some value => Some value
      | None => try_lines field more fieldPatterns
      end
  end.

(** The primary extractor (lines 183-235), started on [{}]. *)
Definition extractField (lines : list jsstring) (extracted : ParsedData)
           (entry : Field * list RegExp) : ParsedData :=
  match try_lines (fst entry) lines (snd entry) with
  | Some value => set_field (fst entry) (Some value) extracted
  | None => extracted
  end.

Definition primaryExtract (lines : list jsstring) : ParsedData :=
  fold_left (extractField lines) patterns empty_data.

(** Lines 238-244; [rollMatch[1]] may be assigned as it is, [undefined]
    included (it never is: lemma [roll_shape_group1]). *)
Definition rollFallback (cleaned : jsstring) (extracted : ParsedData) : ParsedData :=
  if negb (truthy (studentRoll extracted)) && negb (truthy (certificateNumber extracted)) then
    match str_match cleaned (re (Group 1 (between alnum 8 12))) with
    | Some rollMatch => set_field FStudentRoll (group 1 rollMatch) extracted
    | None => extracted
    end
  else extracted.

(** [([A-Za-z\s]+(?:institute|college|university|school))] *)
Definition institution_phrase : RegExp :=
  re_i (Group 1 (Seq (plus alpha_sp)
                     (words ["institute"; "college"; "university"; "school"]%string))).

(** Lines 246-252.  Group 1 takes part in every match of the pattern
    (lemma [institution_phrase_group1]), so the [None] branch of the
    inner match, where [trim] would be called on [undefined], is never
    taken. *)
Definition institutionFallback (cleaned : jsstring) (extracted : ParsedData) : ParsedData :=
  if negb (truthy (institutionName extracted)) then
    match str_match cleaned institution_phrase with
    | Some instMatch =>
        match group 1 instMatch with
        | Some g => set_field FInstitutionName (Some (trim g)) extracted
        | None => extracted
        end
    | None => extracted
    end
  else extracted.

(** [(?:mr\.|ms\.|mrs\.)\s*([A-Z][A-Z\s]+(?:PATIL|...|KUMARI))] *)
Definition receipt_name : RegExp :=
  re_i (seqs [honorific; star space; Group 1 (seqs [upper; plus upper_sp; surnames])]).

(** Lines 258-271.  Group 1 takes part in every match of the pattern
    (lemma [receipt_name_group1]). *)
Definition receiptNameFallback (cleaned : jsstring) (extracted : ParsedData) : ParsedData :=
  if negb (truthy (studentName extracted)) then
    match str_match cleaned receipt_name with
    | Some receiptNameMatch =>
        match group 1 receiptNameMatch with
        | Some g =>
            let name := trim g in
            let name := trim (replace (re (seqs [star space; lit "("; star (ncls [c_ ")"]);
                                                 lit ")"; AssertEnd])) [] name) in
            set_field FStudentName (Some (dropInstitutionWords name)) extracted
        | None => extracted
        end
    | None => extracted
    end
  else extracted.

(** Lines 274-288.  Groups 1 and 2 take part in every match of the
    pattern (lemma [month_day_comma_year_groups]). *)
Definition receiptDateFallback (cleaned : jsstring) (extracted : ParsedData) : ParsedData :=
  if negb (truthy (dateIssued extracted)) then
    match str_match cleaned month_day_comma_year with
    | Some receiptDateMatch =>
        match findIndex (fun month => includes (toLowerCase (whole receiptDateMatch)) month)
                        monthNames with
        | Some monthIndex =>
            match group 1 receiptDateMatch, group 2 receiptDateMatch with
            | Some day, Some year =>
                set_field FDateIssued (Some (formatDate day monthIndex year)) extracted
            | _, _ => extracted
            end
        | None => extracted
        end
    | None => extracted
    end
  else extracted.

(** *** extractFromFormFields *)

Definition formPatterns : list (Field * list RegExp) :=
  [ (FStudentRoll,
     [ re_i (seqs [lit "student"; star space; lit "roll"; star space; lit "no";
                   star colon_sp; Group 1 (plus alnum_dash)]);
       re_i (seqs [lit "roll"; star space; lit "no"; star colon_sp;
                   Group 1 (plus alnum_dash)]);
       re_i (seqs [lit "roll"; star space; lit "number"; star colon_sp;
                   Group 1 (plus alnum_dash)]) ]);
    (FStudentName,
     [ re_i (seqs [lit "student"; star space; lit "name"; star colon_sp;
                   Group 1 (Seq (plus alpha_sp) (opt paren_note))]);
       re_i (seqs [lit "name"; star colon_sp;
                   Group 1 (Seq (plus alpha_sp) (opt paren_note))]);
       receipt_name ]);
    (FInstitutionName,
     [ re_i (seqs [lit "institution"; star colon_sp; Group 1 (plus alpha_punct)]);
       re_i (seqs [lit "college"; star colon_sp; Group 1 (plus alpha_punct)]);
       re_i (seqs [lit "university"; star colon_sp; Group 1 (plus alpha_punct)]);
       re_i (seqs [lit "vidyalankar"; star (cls [CSpace; CWord]); lit "institute";
                   star (cls [CSpace; CWord]); lit "technology"]) ]);
    (FDateIssued,
     [ re_i (seqs [lit "issue"; star space; lit "date"; star colon_sp;
                   Group 1 (plus date_chars)]);
       re_i (seqs [lit "date"; star colon_sp; Group 1 (plus date_chars)]);
       month_then_day_year;
       month_day_comma_year;
       day_month_year ]);
    (FCertificateNumber,
     [ re_i (seqs [lit "receipt"; star space; lit "no"; star colon_sp;
                   Group 1 (plus digit)]);
       re_i (seqs [lit "certificate"; star space; lit "no"; star colon_sp;
                   Group 1 (plus alnum_dash)]);
       re_i (seqs [lit "certificate"; star space; lit "number"; star colon_sp;
                   Group 1 (plus alnum_dash)]) ]) ].

(** [hasValidSurname]: the surname alternation, tested anywhere in the value. *)
Definition valid_surname : RegExp := re_i surnames.

(** The pattern loop of a form field (lines 330-355). *)
Fixpoint form_patterns (field : Field) (text : jsstring) (patterns : list RegExp)
  : option jsstring :=
  match patterns with
  | [] => None
  | pattern :: more =>
      match usable_group (str_match text pattern) with
      | Some value =>
          match field with
          | FStudentName =>
              let value := dropInstitutionWords value in
              if test valid_surname value && (5 <? length value) then Some value
              else form_patterns field text more
          | _ => Some value
          end
      | None => form_patterns field text more
      end
  end.

Definition formField (text : jsstring) (extracted : ParsedData)
           (entry : Field * list RegExp) : ParsedData :=
  if negb (truthy (get_field (fst entry) extracted)) then
    match form_patterns (fst entry) text (snd entry) with
    | Some value => set_field (fst entry) (Some value) extracted
    | None => extracted
    end
  else extracted.

Definition extractFromFormFields (text : jsstring) (extracted : ParsedData) : ParsedData :=
  fold_left (formField text) formPatterns extracted.

(** The whole of parseCertificateText: the primary extractor, then the
    statements of lines 238-288 in source order.  The console.log calls
    and the datePatterns loop of lines 99-115 only write to the console
    and are left out. *)
Definition parseCertificateText (text : jsstring) : ParsedData :=
  let cleaned := cleanedText text in
  let lines := lines_of cleaned in
  let extracted := primaryExtract lines in
  let extracted := rollFallback cleaned extracted in
  let extracted := institutionFallback cleaned extracted in
  let extracted := extractFromFormFields cleaned extracted in
  let extracted := receiptNameFallback cleaned extracted in
  let extracted := receiptDateFallback cleaned extracted in
  extracted.


(** The states of [extracted] along parseCertificateText: [stage text 0] is
    the result of the primary extractor, [stage text k] the record after
    the first [k] fallback statements. *)
Definition fallbacks (cleaned : jsstring) : list (ParsedData -> ParsedData) :=
  [ rollFallback cleaned; institutionFallback cleaned; extractFromFormFields cleaned;
    receiptNameFallback cleaned; receiptDateFallback cleaned ].

Definition run_passes (ps : list (ParsedData -> ParsedData)) (e : ParsedData) : ParsedData :=
  fold_left (fun acc p => p acc) ps e.

Definition stage (text : jsstring) (k : nat) : ParsedData :=
  let cleaned := cleanedText text in
  run_passes (firstn k (fallbacks cleaned)) (primaryExtract (lines_of cleaned)).

(* ================================================================== *)
(** ** validateExtractedData *)

Record ValidationResult := { isValid : bool; errors : list jsstring }.

Definition validateExtractedData (data : ParsedData) : ValidationResult :=
  let errors := [] in
  let errors := if negb (truthy (studentName data))
                then errors ++ [js "Student name not found"] else errors in
  let errors := if negb (truthy (studentRoll data)) && negb (truthy (certificateNumber data))
                then errors ++ [js "Roll number or certificate number not found"] else errors in
  let errors := if negb (truthy (institutionName data))
                then errors ++ [js "Institution name not found"] else errors in
  {| isValid := length errors =? 0; errors := errors |}.

(* ================================================================== *)
(** ** extractText *)

Record File := { type : jsstring; bytes : list N }.

Definition validTypes : list jsstring :=
  map js ["image/jpeg"; "image/jpg"; "image/png"; "image/gif"; "image/bmp"; "image/webp";
          "image/tiff"]%string.

Definition isValidFileType (file : File) : bool :=
  existsb (jseqb (toLowerCase (type file))) validTypes.

Inductive Error := mkError (message : jsstring).

(** What extractText does to the outside world, in order. *)
Inductive Call :=
| DateNow
| ReadAsDataURL (file : File)
| TesseractRecognize (image : jsstring)
| ConsoleError (error : Error).

Inductive Outcome (A : Type) :=
| Returned (a : A)
| Thrown (e : Error).
Arguments Returned {A} a.
Arguments Thrown {A} e.

(** A computation that may throw and that logs its outside calls. *)
Definition Promise (A : Type) := list Call -> Outcome A * list Call.

Definition resolve {A} (a : A) : Promise A := fun w => (Returned a, w).
Definition throw {A} (e : Error) : Promise A := fun w => (Thrown e, w).

Definition await {A B} (p : Promise A) (k : A -> Promise B) : Promise B :=
  fun w => match p w with
           | (Returned a, w') => k a w'
           | (Thrown e, w') => (Thrown e, w')
           end.

Definition try_catch {A} (body : Promise A) (handler : Error -> Promise A) : Promise A :=
  fun w => match body w with
           | (Returned a, w') => (Returned a, w')
           | (Thrown e, w') => handler e w'
           end.

Notation "x <- p ;; k" := (await p (fun x => k))
  (at level 61, p at next level, right associativity).
Notation "p ;;; k" := (await p (fun _ => k))
  (at level 61, right associativity).

Definition is_recognize (c : Call) : bool :=
  match c with TesseractRecognize _ => true | _ => false end.

Section ExtractText.

(** The collaborators: the clock, the FileReader (which may fail) and
    the OCR engine (which may throw).  [number] is the engine's
    confidence type with [Math.round] on it. *)
Variable number : Type.
Variable Math_round : number -> number.
Variable clock : list Call -> Z.
Variable reader : File -> option jsstring.
Variable tesseract : jsstring -> Error + (jsstring * number).

Record ExtractedData := {
  rawText : jsstring;
  confidence : number;
  parsedData : ParsedData;
  processingTime : Z
}.

Definition Date_now : Promise Z := fun w => (Returned (clock w), w ++ [DateNow]).

Definition console_error (e : Error) : Promise unit :=
  fun w => (Returned tt, w ++ [ConsoleError e]).

Definition fileToDataURL (file : File) : Promise jsstring :=
  fun w => match reader file with
           | Some url => (Returned url, w ++ [ReadAsDataURL file])
           | None => (Thrown (mkError (js "Failed to read file")), w ++ [ReadAsDataURL file])
           end.

Definition Tesseract_recognize (image : jsstring) : Promise (jsstring * number) :=
  fun w => match tesseract image with
           | inr r => (Returned r, w ++ [TesseractRecognize image])
           | inl e => (Thrown e, w ++ [TesseractRecognize image])
           end.

Definition unsupported_message : jsstring :=
  js "Unsupported file type. Please use image files (JPG, PNG, etc.)".

Definition failure_message : jsstring :=
  js "Failed to extract text from document. Please ensure the file is a valid image.".

Definition extractText (file : File) : Promise ExtractedData :=
  startTime <- Date_now ;;
  try_catch
    ((if negb (isValidFileType file) then throw (mkError unsupported_message)
      else resolve tt) ;;;
     imageDataUrl <- fileToDataURL file ;;
     r <- Tesseract_recognize imageDataUrl ;;
     now <- Date_now ;;
     let processingTime := (now - startTime)%Z in
     let parsedData := parseCertificateText (fst r) in
     resolve {| rawText := fst r; confidence := Math_round (snd r);
                parsedData := parsedData; processingTime := processingTime |})
    (fun error =>
       console_error error ;;;
       throw (mkError failure_message)).

End ExtractText.

(* ================================================================== *)
(** ** The normaliser, stated on lists *)

(** The characters the first replacement of parseCertificateText keeps. *)
Definition allow_listed (c : jschar) : bool :=
  is_word c || is_space c || (c =? chr "-")%N || (c =? chr ".")%N || (c =? chr ",")%N
  || (c =? chr "/")%N || (c =? chr ":")%N || (c =? chr "(")%N || (c =? chr ")")%N.

(** The allow-list as the specification words it: [[A-Za-z0-9\s\-.,/:()]]. *)
Definition spec_allow_listed (c : jschar) : bool :=
  is_upper c || is_lower c || is_digit c || is_space c || (c =? chr "-")%N
  || (c =? chr ".")%N || (c =? chr ",")%N || (c =? chr "/")%N || (c =? chr ":")%N
  || (c =? chr "(")%N || (c =? chr ")")%N.

Definition blank_unless (keep : jschar -> bool) (s : jsstring) : jsstring :=
  map (fun c => if keep c then c else chr " ") s.

(** Every run of whitespace becomes one space; [in_run] tells that the
    previous character was whitespace. *)
Fixpoint collapse_ws (in_run : bool) (s : jsstring) : jsstring :=
  match s with
  | [] => []
  | c :: s' =>
      if is_space c then (if in_run then collapse_ws true s' else chr " " :: collapse_ws true s')
      else c :: collapse_ws false s'
  end.

(** The normalisation step as the specification describes it, over a
    given allow-list. *)
Definition normalize_text (keep : jschar -> bool) (raw : jsstring) : jsstring :=
  trim (collapse_ws false (blank_unless keep raw)).

(** Whitespace occurs only as single spaces. *)
Fixpoint single_spaced (after_space : bool) (s : jsstring) : bool :=
  match s with
  | [] => true
  | c :: s' =>
      if is_space c then (c =? chr " ")%N && negb after_space && single_spaced true s'
      else single_spaced false s'
  end.

(** No whitespace at either end. *)
Definition trimmed (s : jsstring) : Prop :=
  drop_while is_space s = s /\ drop_while is_space (rev s) = rev s.

Fixpoint span_len (p : jschar -> bool) (s : jsstring) : nat :=
  match s with
  | [] => 0
  | c :: s' => if p c then S (span_len p s') else 0
  end.

(** The fallback order as the specification lists it: the form-field
    pass last, after both receipt passes. *)
Definition parse_in_listed_order (text : jsstring) : ParsedData :=
  let cleaned := cleanedText text in
  let extracted := primaryExtract (lines_of cleaned) in
  let extracted := rollFallback cleaned extracted in
  let extracted := institutionFallback cleaned extracted in
  let extracted := receiptNameFallback cleaned extracted in
  let extracted := receiptDateFallback cleaned extracted in
  extractFromFormFields cleaned extracted.

(** The words a match of a pattern may consume; assertions consume
    nothing.  Used to read off what a capture group can hold. *)
Fixpoint lang (ic : bool) (r : regex) (w : jsstring) : Prop :=
  match r with
  | Empty => w = []
  | Char d => exists ch, w = [ch] /\ canonicalize ic ch = canonicalize ic d
  | Dot => exists ch, w = [ch] /\ is_line_terminator ch = false
  | Class inv atoms => exists ch, w = [ch] /\ class_matches ic inv atoms ch = true
  | Seq r1 r2 => exists w1 w2, w = w1 ++ w2 /\ lang ic r1 w1 /\ lang ic r2 w2
  | Alt r1 r2 => lang ic r1 w \/ lang ic r2 w
  | Rep r1 min _ => exists ws, w = concat ws /\ Forall (lang ic r1) ws /\ min <= length ws
  | Group _ r1 => lang ic r1 w
  | NegLookahead _ | AssertStart | AssertEnd => w = []
  end.

(** [y] is [x] moved forward over [w]. *)
Definition reaches (x y : MatchState) (w : jsstring) : Prop :=
  rest x = w ++ rest y /\ endIndex y = endIndex x + length w.

(** Captures of groups outside [gs] are the same in [x] and [y]. *)
Definition same_outside (gs : list nat) (x y : MatchState) : Prop :=
  forall n, ~ In n gs -> lookup n (captures y) = lookup n (captures x).

Definition sound_matcher (mm : Matcher) (L : jsstring -> Prop) (gs : list nat) : Prop :=
  forall x c z, mm x c = Some z ->
    exists w y, reaches x y w /\ L w /\ same_outside gs x y /\ c y = Some z.

(** A matcher looks at its continuation only on states further along
    the input. *)
Definition respects (mm : Matcher) : Prop :=
  forall x c c', (forall y w, reaches x y w -> c y = c' y) -> mm x c = mm x c'.

(** Group [n] takes part in every match of [r]. *)
Fixpoint defines (n : nat) (r : regex) : bool :=
  match r with
  | Seq r1 r2 => defines n r2 || (defines n r1 && negb (existsb (Nat.eqb n) (groups r2)))
  | Alt r1 r2 => defines n r1 && defines n r2
  | Group k r1 => (k =? n) || defines n r1
  | _ => false
  end.

(** All present fields hold non-empty strings. *)
Definition no_empty_field (e : ParsedData) : Prop :=
  forall f v, get_field f e = Some v -> v <> [].

(** Going from [e] to [e'] only fills fields that were absent in [e]. *)
Definition fills_gaps_only (e e' : ParsedData) : Prop :=
  forall f, get_field f e = None \/ get_field f e' = get_field f e.

(* ================================================================== *)
(** ** Inputs of the scenarios *)

Definition newline : jsstring := [chr "010"].

(** ["Mr. NIKHIL SUREDRA PATIL (OPEN)\nReceipt No: 123456\nJune 27, 2025"] *)
Definition receipt_text : jsstring :=
  js "Mr. NIKHIL SUREDRA PATIL (OPEN)" ++ newline ++ js "Receipt No: 123456" ++ newline
  ++ js "June 27, 2025".

(** ["XYZ Institute of Technology\nMr. RAJESH KUMAR"] *)
Definition institute_then_name_text : jsstring :=
  js "XYZ Institute of Technology" ++ newline ++ js "Mr. RAJESH KUMAR".

(** A text on which the form-field pass and the receipt-name pass both
    find a student name, and not the same one. *)
Definition two_names_text : jsstring :=
  js "Student College. Name: JOSHIX. Mr. College. Mrs. ANITA REDDY".

Definition pdf_file (data : list N) : File :=
  {| type := js "application/pdf"; bytes := data |}.

(* ================================================================== *)
(** ** formatExtractedData *)

(** The [fields] array of formatExtractedData (lines 374-383). *)
Definition labelled_fields (data : ParsedData) : list (jsstring * option jsstring) :=
  [ (js "Student Name", studentName data);
    (js "Roll Number", studentRoll data);
    (js "Certificate Number", certificateNumber data);
    (js "Institution", institutionName data);
    (js "Course", courseName data);
    (js "Marks", marks data);
    (js "Date Issued", dateIssued data);
    (js "UIN", uin data) ].

(** [`${v}`] for an optional string. *)
Definition template_value (v : option jsstring) : jsstring :=
  match v with
  | Some s => s
  | None => js "undefined"
  end.

(** [fields.filter(field => field.value).map(field => `${field.label}: ${field.value}`)] *)
Definition formatted_fields (data : ParsedData) : list jsstring :=
  map (fun field => fst field ++ js ": " ++ template_value (snd field))
      (filter (fun field => truthy (snd field)) (labelled_fields data)).

Definition formatExtractedData (data : ParsedData) : jsstring :=
  join newline (formatted_fields data).

(** The characters the normaliser turns into separators: whitespace and
    whatever is not on the allow-list. *)
Definition space_like (c : jschar) : bool := is_space c || negb (allow_listed c).

(** The institution words, none of which may be part of a word of a name. *)
Definition free_of_institution_words (name : jsstring) : bool :=
  forallb (fun inst => negb (includes (toLowerCase name) (toLowerCase inst))) institutionWords.

(* ================================================================== *)
(** ** Callers of the OCR result *)

(** *** handleOCRDataExtracted (pages/StudentLogin.tsx, lines 478-494) *)

(** The form state of the legacy-document request page. *)
Record FormData := {
  form_studentName : jsstring;
  form_studentRoll : jsstring;
  form_docType : jsstring;
  form_marks : jsstring;
  form_uin : jsstring;
  form_dateIssued : jsstring;
  form_instituteId : jsstring;
  form_document : option File
}.

(** [a || b] for an optional string [a] and a string [b]. *)
Definition or_else (a : option jsstring) (b : jsstring) : jsstring :=
  match a with
  | Some (c :: s) => c :: s
  | _ => b
  end.

(** The updater handed to setFormData. *)
Definition fillFormData (data : ParsedData) (prev : FormData) : FormData :=
  {| form_studentName := or_else (studentName data) (form_studentName prev);
     form_studentRoll := or_else (studentRoll data) (form_studentRoll prev);
     form_docType := or_else (courseName data) (form_docType prev);
     form_marks := or_else (marks data) (form_marks prev);
     form_uin := or_else (certificateNumber data) (or_else (uin data) (form_uin prev));
     form_dateIssued := or_else (dateIssued data) (form_dateIssued prev);
     form_instituteId := form_instituteId prev;
     form_document := form_document prev |}.

Definition nonblank (s : jsstring) : bool :=
  match s with
  | [] => false
  | _ :: _ => true
  end.

(** *** handleOCRVerification (LegacyDocumentManagement, lines 135-162) *)

Definition opt_eqb (a b : option jsstring) : bool :=
  match a, b with
  | Some x, Some y => jseqb x y
  | None, None => true
  | _, _ => false
  end.

(** What the handler does to the page and the server, in order. *)
Inductive Effect :=
| Toast (title description : jsstring)
| SetShowOCR (shown : bool)
| SetSelectedDocumentNull
| UpdateStatus (docId : Z) (newStatus : jsstring).

Definition is_update (e : Effect) : bool :=
  match e with UpdateStatus _ _ => true | _ => false end.

(** [Math.round((matches / total) * 100)] for counts [matches <= total]
    with [total = 6]: the seven quotients are 0, 16.67, 33.33, 50, 66.67,
    83.33 and 100 in double precision too, none of them near a half
    except the exact 50, so rounding the exact quotient half up gives the
    same integers. *)
Definition round_percent (matches total : nat) : nat :=
  (200 * matches + total) / (2 * total).

Section LegacyDocumentManagement.

(** The stored marks are a number; only its [toString] is used. *)
Variable number : Type.
Variable Number_toString : number -> jsstring.

(** The fields of LegacyDocument the handler reads. *)
Record LegacyDocument := {
  doc_id : Z;
  student_name : jsstring;
  student_roll : jsstring;
  doc_type : jsstring;
  doc_marks : option number;
  doc_uin : jsstring;
  date_issued : jsstring
}.

(** [Object.values(comparison)] *)
Definition comparison (data : ParsedData) (document : LegacyDocument) : list bool :=
  [ opt_eqb (studentName data) (Some (student_name document));
    opt_eqb (studentRoll data) (Some (student_roll document));
    opt_eqb (courseName data) (Some (doc_type document));
    opt_eqb (certificateNumber data) (Some (doc_uin document))
      || opt_eqb (uin data) (Some (doc_uin document));
    opt_eqb (marks data) (option_map Number_toString (doc_marks document));
    opt_eqb (dateIssued data) (Some (date_issued document)) ].

Definition matchPercentage (data : ParsedData) (document : LegacyDocument) : nat :=
  let matches := length (filter (fun b => b) (comparison data document)) in
  let total := length (comparison data document) in
  round_percent matches total.

Definition handleOCRVerification (data : ParsedData) (document : LegacyDocument)
  : list Effect :=
  let pct := matchPercentage data document in
  [ Toast (js "OCR Verification Complete")
          (js "Document verification: " ++ String_of_nat pct
           ++ js "% match with stored data");
    SetShowOCR false;
    SetSelectedDocumentNull ]
  ++ (if 80 <=? pct then [UpdateStatus (doc_id document) (js "verified")] else []).

End LegacyDocumentManagement.

(* ================================================================== *)
(** ** The words of a text *)

Definition starts_with_separator (s : jsstring) : bool :=
  match s with
  | c :: _ => space_like c
  | [] => false
  end.

(** The maximal runs of characters that are no separators, in order. *)
Fixpoint words_of (s : jsstring) : list jsstring :=
  match s with
  | [] => []
  | c :: s' =>
      if space_like c then words_of s'
      else if starts_with_separator s' then [c] :: words_of s'
      else match words_of s' with
           | w :: ws => (c :: w) :: ws
           | [] => [[c]]
           end
  end.

(** Two characters that are the same or both separators. *)
Definition same_or_separators (c d : jschar) : Prop :=
  c = d \/ (space_like c = true /\ space_like d = true).

(** The studentName of a record, if any, holds no institution word. *)
Definition name_is_free (e : ParsedData) : Prop :=
  forall v, get_field FStudentName e = Some v -> free_of_institution_words v = true.

(* ================================================================== *)
(** ** What a capture group can hold *)

(** [v] is a word of the body of some group numbered [n] in [r]. *)
Fixpoint captured_by (ic : bool) (r : regex) (n : nat) (v : jsstring) : Prop :=
  match r with
  | Seq r1 r2 | Alt r1 r2 => captured_by ic r1 n v \/ captured_by ic r2 n v
  | Rep r1 _ _ | NegLookahead r1 => captured_by ic r1 n v
  | Group k r1 => (k = n /\ lang ic r1 v) \/ captured_by ic r1 n v
  | _ => False
  end.

(** The captures of [y] are those of [x] or come from groups as [C] says. *)
Definition captures_from (C : nat -> jsstring -> Prop) (x y : MatchState) : Prop :=
  forall n v, lookup n (captures y) = Some v -> lookup n (captures x) = Some v \/ C n v.

Definition capturing_matcher (mm : Matcher) (L : jsstring -> Prop)
           (C : nat -> jsstring -> Prop) : Prop :=
  forall x c z, mm x c = Some z ->
    exists w y, reaches x y w /\ L w /\ captures_from C x y /\ c y = Some z.

Definition atom_eqb (a b : ClassAtom) : bool :=
  match a, b with
  | CChar c, CChar d => (c =? d)%N
  | CRange lo hi, CRange lo' hi' => (lo =? lo')%N && (hi =? hi')%N
  | CSpace, CSpace | CWord, CWord | CDigit, CDigit => true
  | _, _ => false
  end.

(** [r] consumes characters through plain classes over the atoms [L] only. *)
Fixpoint class_only (L : list ClassAtom) (r : regex) : bool :=
  match r with
  | Empty => true
  | Class false atoms => forallb (fun a => existsb (atom_eqb a) L) atoms
  | Seq r1 r2 | Alt r1 r2 => class_only L r1 && class_only L r2
  | Rep r1 _ _ | Group _ r1 => class_only L r1
  | _ => false
  end.

(** Every group numbered [n] in [r] has a [class_only] body. *)
Fixpoint group_class_only (n : nat) (L : list ClassAtom) (r : regex) : bool :=
  match r with
  | Seq r1 r2 | Alt r1 r2 => group_class_only n L r1 && group_class_only n L r2
  | Rep r1 _ _ | NegLookahead r1 => group_class_only n L r1
  | Group k r1 => (if k =? n then class_only L r1 else true) && group_class_only n L r1
  | _ => true
  end.

(** [c] is matched by one of the atoms [L]. *)
Definition in_classes (ic : bool) (L : list ClassAtom) (c : jschar) : bool :=
  existsb (fun a => atom_matches ic a c) L.

(** The atoms of the group-1 bodies of the dateIssued patterns:
    [[0-9]], [/], [-], [.], [,] and [\s]. *)
Definition date_atoms : list ClassAtom :=
  [d0_9; c_ "/"; c_ "-"; c_ "."; c_ ","; CSpace].

Definition is_letter (c : jschar) : bool := is_upper c || is_lower c.

(* ================================================================== *)
(** ** Lists of code units *)

Lemma drop_while_split (p : jschar -> bool) (s : jsstring) :
  exists t, s = t ++ drop_while p s /\ Forall (fun c => p c = true) t.
Proof.
  induction s as [|c s IH]; simpl.
  - exists []. split; [reflexivity | constructor].
  - destruct (p c) eqn:E.
    + destruct IH as (t & Hs & Ht). exists (c :: t). split.
      * simpl. now rewrite <- Hs.
      * now constructor.
    + exists []. split; [reflexivity | constructor].
Qed.

Lemma drop_while_idem (p : jschar -> bool) (s : jsstring) :
  drop_while p (drop_while p s) = drop_while p s.
Proof.
  induction s as [|c s IH]; simpl; [reflexivity|].
  destruct (p c) eqn:E; [exact IH | simpl; now rewrite E].
Qed.

Lemma drop_while_fixed_prefix (p : jschar -> bool) (u v : jsstring) :
  drop_while p (u ++ v) = u ++ v -> drop_while p u = u.
Proof.
  destruct u as [|a u]; simpl; [reflexivity|].
  destruct (p a) eqn:E; [|reflexivity].
  intros H. exfalso.
  destruct (drop_while_split p (u ++ v)) as (t & Hs & _).
  rewrite H in Hs. apply (f_equal (@length _)) in Hs.
  rewrite !length_app in Hs. simpl in Hs. rewrite ?length_app in Hs. lia.
Qed.

Lemma rev_drop_while_prefix (p : jschar -> bool) (s : jsstring) :
  exists t, s = rev (drop_while p (rev s)) ++ t /\ Forall (fun c => p c = true) t.
Proof.
  destruct (drop_while_split p (rev s)) as (t & Hs & Ht).
  exists (rev t). split.
  - rewrite <- rev_app_distr, <- Hs. now rewrite rev_involutive.
  - now apply Forall_rev.
Qed.

Lemma trim_trimmed (s : jsstring) : trimmed (trim s).
Proof.
  unfold trimmed, trim. split.
  - destruct (rev_drop_while_prefix is_space (drop_while is_space s)) as (t & Hs & _).
    apply drop_while_fixed_prefix with (v := t).
    rewrite <- Hs. apply drop_while_idem.
  - rewrite rev_involutive. apply drop_while_idem.
Qed.

Lemma trimmed_trim (s : jsstring) : trimmed s -> trim s = s.
Proof.
  intros [H1 H2]. unfold trim. rewrite H1, H2. apply rev_involutive.
Qed.

Lemma trim_idem (s : jsstring) : trim (trim s) = trim s.
Proof. apply trimmed_trim, trim_trimmed. Qed.

(** [trim s] is a segment of [s]. *)
Lemma trim_segment (s : jsstring) : exists l r, s = l ++ trim s ++ r.
Proof.
  destruct (drop_while_split is_space s) as (l & Hl & _).
  destruct (rev_drop_while_prefix is_space (drop_while is_space s)) as (r & Hr & _).
  exists l, r. unfold trim. now rewrite <- Hr.
Qed.

Lemma Forall_trim (P : jschar -> Prop) (s : jsstring) : Forall P s -> Forall P (trim s).
Proof.
  intros H. destruct (trim_segment s) as (l & r & E). rewrite E in H.
  apply Forall_app in H. destruct H as [_ H]. apply Forall_app in H. tauto.
Qed.

Lemma drop_while_keeps (p : jschar -> bool) (c : jschar) (s : jsstring) :
  In c s -> p c = false -> In c (drop_while p s).
Proof.
  induction s as [|a s IH]; simpl; [tauto|].
  intros [->|H] Hc.
  - rewrite Hc. now left.
  - destruct (p a); [now apply IH | now right].
Qed.

Lemma trim_keeps (c : jschar) (s : jsstring) :
  In c s -> is_space c = false -> In c (trim s).
Proof.
  intros H Hc. unfold trim. rewrite <- in_rev.
  apply drop_while_keeps; [|exact Hc]. rewrite <- in_rev.
  now apply drop_while_keeps.
Qed.

Lemma single_spaced_weaken (b : bool) (s : jsstring) :
  single_spaced b s = true -> single_spaced false s = true.
Proof.
  destruct s as [|c s]; simpl; [reflexivity|].
  destruct (is_space c); [|tauto].
  destruct b; simpl; [|tauto].
  rewrite andb_false_r. discriminate.
Qed.

Lemma single_spaced_app (b : bool) (u v : jsstring) :
  single_spaced b (u ++ v) = true ->
  single_spaced b u = true /\ single_spaced false v = true.
Proof.
  revert b. induction u as [|c u IH]; intros b; simpl.
  - intros H. split; [reflexivity | now apply single_spaced_weaken with b].
  - destruct (is_space c).
    + intros H. apply andb_prop in H. destruct H as [H1 H2].
      apply IH in H2. destruct H2 as [H2 H3]. now rewrite H1, H2.
    + apply IH.
Qed.

Lemma single_spaced_trim (s : jsstring) :
  single_spaced false s = true -> single_spaced false (trim s) = true.
Proof.
  intros H. destruct (trim_segment s) as (l & r & E). rewrite E in H.
  apply single_spaced_app in H. destruct H as [_ H].
  apply single_spaced_app in H. tauto.
Qed.

Lemma single_spaced_collapse (b : bool) (s : jsstring) :
  single_spaced b (collapse_ws b s) = true.
Proof.
  revert b. induction s as [|c s IH]; intros b; simpl; [reflexivity|].
  destruct (is_space c) eqn:E.
  - destruct b; [apply IH|]. simpl. apply IH.
  - simpl. rewrite E. apply IH.
Qed.

Lemma collapse_single_spaced (b : bool) (s : jsstring) :
  single_spaced b s = true -> collapse_ws b s = s.
Proof.
  revert b. induction s as [|c s IH]; intros b; cbn [single_spaced collapse_ws];
    [reflexivity|].
  destruct (is_space c) eqn:E.
  - intros H. apply andb_prop in H. destruct H as [H1 H2].
    apply andb_prop in H1. destruct H1 as [H1 Hb].
    apply N.eqb_eq in H1. destruct b; [discriminate|].
    rewrite (IH true H2). now rewrite H1.
  - intros H. now rewrite (IH false H).
Qed.

Lemma collapse_after_run (s : jsstring) :
  collapse_ws true s = collapse_ws false (drop_while is_space s).
Proof.
  induction s as [|c s IH]; simpl; [reflexivity|].
  destruct (is_space c) eqn:E; [exact IH|]. simpl. now rewrite E.
Qed.

Lemma Forall_collapse (P : jschar -> Prop) (b : bool) (s : jsstring) :
  P (chr " ") -> Forall P s -> Forall P (collapse_ws b s).
Proof.
  intros Hsp H. revert b. induction H as [|c s Hc H IH]; intros b; simpl; [constructor|].
  destruct (is_space c); [destruct b|]; auto.
Qed.

Lemma blank_unless_kept (keep : jschar -> bool) (s : jsstring) :
  Forall (fun c => keep c = true) s -> blank_unless keep s = s.
Proof.
  induction 1 as [|c s Hc H IH]; simpl; [reflexivity|].
  rewrite Hc. f_equal. exact IH.
Qed.

Lemma Forall_blank_unless (keep : jschar -> bool) (s : jsstring) :
  keep (chr " ") = true -> Forall (fun c => keep c = true) (blank_unless keep s).
Proof.
  intros Hsp. induction s as [|c s IH]; simpl; constructor; [|exact IH].
  destruct (keep c) eqn:E; [exact E | exact Hsp].
Qed.

(** Normalising over any allow-list that keeps the space is idempotent. *)
Lemma normalize_text_idem (keep : jschar -> bool) (raw : jsstring) :
  keep (chr " ") = true ->
  normalize_text keep (normalize_text keep raw) = normalize_text keep raw.
Proof.
  intros Hsp. unfold normalize_text at 1.
  rewrite blank_unless_kept.
  - rewrite collapse_single_spaced.
    + apply trim_idem.
    + apply single_spaced_trim, single_spaced_collapse.
  - apply Forall_trim, Forall_collapse; [exact Hsp|].
    now apply Forall_blank_unless.
Qed.

(* ================================================================== *)
(** ** The two global replacements of the normaliser *)

Lemma special_chars_class (c : jschar) :
  class_matches false true
    [CWord; CSpace; c_ "-"; c_ "."; c_ ","; c_ "/"; c_ ":"; c_ "("; c_ ")"] c
  = negb (allow_listed c).
Proof.
  unfold class_matches, allow_listed, atom_matches, c_.
  cbn [existsb atom_has andb xorb]. rewrite !orb_false_r.
  now rewrite <- !orb_assoc.
Qed.

Lemma match_at_special_chars (i : nat) (s : jsstring) :
  match_at special_chars i s =
  match s with
  | c :: tl => if allow_listed c then None
               else Some {| endIndex := S i; rest := tl; captures := [] |}
  | [] => None
  end.
Proof.
  unfold match_at, special_chars, re, ncls. cbn [source ignoreCase m rest].
  destruct s as [|c tl]; [reflexivity|].
  rewrite special_chars_class. now destruct (allow_listed c).
Qed.

Lemma replace_go_special_chars (i : nat) (s : jsstring) :
  replace_go special_chars [chr " "] i 0 s = blank_unless allow_listed s.
Proof.
  revert i. induction s as [|c s IH]; intros i; cbn [replace_go];
    rewrite match_at_special_chars; [reflexivity|].
  cbn [blank_unless map]. destruct (allow_listed c).
  - f_equal. apply IH.
  - cbn [endIndex]. rewrite (proj2 (Nat.eqb_neq (S i) i)) by lia.
    replace (S i - i - 1) with 0 by lia. cbn [app]. f_equal. apply IH.
Qed.

Lemma replace_all_special_chars (s : jsstring) :
  replace_all special_chars (js " ") s = blank_unless allow_listed s.
Proof. apply replace_go_special_chars. Qed.

Lemma space_class (c : jschar) : class_matches false false [CSpace] c = is_space c.
Proof.
  unfold class_matches, atom_matches. cbn [existsb atom_has andb xorb].
  now rewrite !orb_false_r.
Qed.

Lemma m_space (x : MatchState) (c : Continuation) :
  m false space x c =
  match rest x with
  | ch :: tl => if is_space ch then c (advance x tl) else None
  | [] => None
  end.
Proof.
  unfold space, cls. cbn [m]. destruct (rest x); [reflexivity|].
  now rewrite space_class.
Qed.

(** A greedy run of [\s] with nothing after it swallows every leading
    whitespace character. *)
Lemma repeat_opt_space (fuel i : nat) (s : jsstring) :
  length s <= fuel ->
  repeat_opt (m false space) [] None fuel {| endIndex := i; rest := s; captures := [] |} Some
  = Some {| endIndex := i + span_len is_space s; rest := drop_while is_space s;
            captures := [] |}.
Proof.
  revert i s. induction fuel as [|fuel IH]; intros i s Hlen.
  - destruct s; [|simpl in Hlen; lia]. cbn. now rewrite Nat.add_0_r.
  - cbn [repeat_opt max_is_zero]. rewrite m_space.
    change (clear_captures [] {| endIndex := i; rest := s; captures := [] |})
      with {| endIndex := i; rest := s; captures := [] |}.
    cbn [rest]. destruct s as [|c tl].
    + cbn. now rewrite Nat.add_0_r.
    + cbn [span_len drop_while]. destruct (is_space c).
      * unfold advance. cbn [endIndex captures dec_max option_map].
        rewrite (proj2 (Nat.eqb_neq (S i) i)) by lia.
        rewrite IH by (simpl in Hlen; lia).
        now rewrite Nat.add_succ_r.
      * now rewrite Nat.add_0_r.
Qed.

Lemma match_at_whitespace_run (i : nat) (s : jsstring) :
  match_at whitespace_run i s =
  match s with
  | c :: tl =>
      if is_space c
      then Some {| endIndex := S i + span_len is_space tl; rest := drop_while is_space tl;
                   captures := [] |}
      else None
  | [] => None
  end.
Proof.
  unfold match_at, whitespace_run, re, plus.
  cbn [source ignoreCase m repeat_min max_is_zero]. rewrite m_space.
  change (clear_captures (groups space) {| endIndex := i; rest := s; captures := [] |})
    with {| endIndex := i; rest := s; captures := [] |}.
  cbn [rest]. destruct s as [|c tl]; [reflexivity|].
  destruct (is_space c); [|reflexivity].
  unfold advance. cbn [endIndex captures rest dec_max option_map groups].
  now rewrite repeat_opt_space.
Qed.

Lemma replace_go_whitespace_run (s : jsstring) : forall i,
  replace_go whitespace_run [chr " "] i 0 s = collapse_ws false s /\
  replace_go whitespace_run [chr " "] i (span_len is_space s) s = collapse_ws true s.
Proof.
  induction s as [|c s IH]; intros i.
  - cbn [span_len replace_go]. rewrite match_at_whitespace_run. now split.
  - assert (A : replace_go whitespace_run [chr " "] i 0 (c :: s) = collapse_ws false (c :: s)).
    { cbn [replace_go collapse_ws]. rewrite match_at_whitespace_run.
      destruct (is_space c).
      - cbn [endIndex app].
        rewrite (proj2 (Nat.eqb_neq (S i + span_len is_space s) i)) by lia.
        replace (S i + span_len is_space s - i - 1) with (span_len is_space s) by lia.
        f_equal. apply IH.
      - f_equal. apply IH. }
    split; [exact A|].
    cbn [span_len]. destruct (is_space c) eqn:E.
    + cbn [replace_go collapse_ws]. rewrite E. apply IH.
    + rewrite A. cbn [collapse_ws]. now rewrite E.
Qed.

Lemma replace_all_whitespace_run (s : jsstring) :
  replace_all whitespace_run (js " ") s = collapse_ws false s.
Proof. apply (replace_go_whitespace_run s 0). Qed.

(** The cleaned text is the list-level normalisation over the source's
    allow-list. *)
Lemma cleanedText_normalize (text : jsstring) :
  cleanedText text = normalize_text allow_listed text.
Proof.
  unfold cleanedText, normalize_text.
  now rewrite replace_all_special_chars, replace_all_whitespace_run.
Qed.

(* ================================================================== *)
(** ** Character facts *)

Ltac chr_values :=
  repeat match goal with
         | |- context [chr ?a] =>
             let v := eval vm_compute in (chr a) in change (chr a) with v
         | H : context [chr ?a] |- _ =>
             let v := eval vm_compute in (chr a) in change (chr a) with v in H
         end.

Ltac split_bools :=
  repeat match goal with
         | H : (_ || _)%bool = true |- _ => apply orb_prop in H; destruct H as [H|H]
         | H : (_ && _)%bool = true |- _ => apply andb_prop in H; destruct H
         | H : (_ || _)%bool = false |- _ => apply orb_false_elim in H; destruct H
         | H : (_ && _)%bool = false |- _ => apply andb_false_iff in H; destruct H as [H|H]
         | H : (_ <=? _)%N = true |- _ => apply N.leb_le in H
         | H : (_ <=? _)%N = false |- _ => apply N.leb_gt in H
         | H : (_ =? _)%N = true |- _ => apply N.eqb_eq in H
         | H : (_ =? _)%N = false |- _ => apply N.eqb_neq in H
         end.

Lemma is_space_not_letter (c : jschar) :
  is_space c = true -> in_range 65 122 c = false.
Proof.
  intros H. destruct (in_range 65 122 c) eqn:E; [|reflexivity].
  unfold is_space, in_range in *. split_bools; lia.
Qed.

Lemma allow_listed_space : allow_listed (chr " ") = true.
Proof. reflexivity. Qed.

Lemma allow_listed_ascii (c : jschar) :
  allow_listed c = true -> (is_space c = true -> c = chr " ") -> (c < 128)%N.
Proof.
  intros H Hsp. destruct (is_space c) eqn:E.
  - rewrite Hsp by reflexivity. reflexivity.
  - unfold allow_listed in H. rewrite E in H.
    unfold is_word, is_upper, is_lower, is_digit, in_range in H. chr_values.
    split_bools; try lia; discriminate.
Qed.

Lemma single_spaced_space (b : bool) (s : jsstring) (c : jschar) :
  single_spaced b s = true -> In c s -> is_space c = true -> c = chr " ".
Proof.
  revert b. induction s as [|d s IH]; intros b; cbn [single_spaced In]; [tauto|].
  intros H [->|Hin] Hc.
  - rewrite Hc in H. apply andb_prop in H. destruct H as [H _].
    apply andb_prop in H. destruct H as [H _]. now apply N.eqb_eq in H.
  - destruct (is_space d).
    + apply andb_prop in H. destruct H as [_ H]. now apply IH with true.
    + now apply IH with false.
Qed.

(* ================================================================== *)
(** ** Shape of the cleaned text *)

Lemma cleanedText_allowed (text : jsstring) :
  Forall (fun c => allow_listed c = true) (cleanedText text).
Proof.
  rewrite cleanedText_normalize. unfold normalize_text.
  apply Forall_trim, Forall_collapse; [reflexivity|].
  now apply Forall_blank_unless.
Qed.

Lemma cleanedText_single_spaced (text : jsstring) :
  single_spaced false (cleanedText text) = true.
Proof.
  rewrite cleanedText_normalize. apply single_spaced_trim, single_spaced_collapse.
Qed.

Lemma cleanedText_trimmed (text : jsstring) : trimmed (cleanedText text).
Proof. unfold cleanedText. apply trim_trimmed. Qed.

(** The cleaned text is ASCII: this is what the ASCII [toLowerCase] and
    [canonicalize] of the model rely on. *)
Lemma cleanedText_ascii (text : jsstring) :
  Forall (fun c => (c < 128)%N) (cleanedText text).
Proof.
  apply Forall_forall. intros c Hin.
  apply allow_listed_ascii.
  - pose proof (cleanedText_allowed text) as H.
    rewrite Forall_forall in H. now apply H.
  - intros Hsp. apply single_spaced_space with (b := false) (s := cleanedText text); auto.
    apply cleanedText_single_spaced.
Qed.

Lemma split_on_no_sep (sep : jschar) (cur s : jsstring) :
  (forall c, In c s -> c <> sep) -> split_on sep cur s = [cur ++ s].
Proof.
  revert cur. induction s as [|c s IH]; intros cur H; cbn [split_on].
  - now rewrite app_nil_r.
  - destruct (c =? sep)%N eqn:E.
    + apply N.eqb_eq in E. exfalso. apply (H c); [now left | exact E].
    + rewrite IH.
      * now rewrite <- app_assoc.
      * intros d Hd. apply H. now right.
Qed.

Lemma cleanedText_no_newline (text : jsstring) (c : jschar) :
  In c (cleanedText text) -> c <> chr "010".
Proof.
  intros Hin Hc. subst c.
  assert (H : chr "010" = chr " ").
  { apply single_spaced_space with (b := false) (s := cleanedText text);
      [apply cleanedText_single_spaced | exact Hin | reflexivity]. }
  discriminate H.
Qed.

Lemma lines_of_cleanedText (text : jsstring) :
  lines_of (cleanedText text) =
  match cleanedText text with
  | [] => []
  | _ :: _ => [cleanedText text]
  end.
Proof.
  unfold lines_of, split_char.
  rewrite split_on_no_sep by apply cleanedText_no_newline.
  cbn [app map filter]. rewrite (trimmed_trim (cleanedText_trimmed text)).
  now destruct (cleanedText text).
Qed.

Lemma lines_of_trimmed (cleaned : jsstring) :
  Forall (fun line => trimmed line /\ line <> []) (lines_of cleaned).
Proof.
  unfold lines_of. apply Forall_forall. intros line Hin.
  apply filter_In in Hin. destruct Hin as [Hin Hlen].
  apply in_map_iff in Hin. destruct Hin as (piece & <- & _). split.
  - apply trim_trimmed.
  - intros E. rewrite E in Hlen. discriminate.
Qed.

(* ================================================================== *)
(** ** Soundness of the matcher *)

Lemma reaches_refl (x : MatchState) : reaches x x [].
Proof. split; [reflexivity | simpl; lia]. Qed.

Lemma reaches_trans (x y z : MatchState) (w1 w2 : jsstring) :
  reaches x y w1 -> reaches y z w2 -> reaches x z (w1 ++ w2).
Proof.
  intros [H1 H2] [H3 H4]. split.
  - now rewrite H1, H3, app_assoc.
  - rewrite H4, H2, length_app. lia.
Qed.

Lemma same_outside_refl (gs : list nat) (x : MatchState) : same_outside gs x x.
Proof. now intros n _. Qed.

Lemma same_outside_trans (gs : list nat) (x y z : MatchState) :
  same_outside gs x y -> same_outside gs y z -> same_outside gs x z.
Proof. intros H1 H2 n Hn. now rewrite H2, H1. Qed.

Lemma same_outside_mono (gs gs' : list nat) (x y : MatchState) :
  (forall n, In n gs -> In n gs') -> same_outside gs x y -> same_outside gs' x y.
Proof. intros Hsub H n Hn. apply H. intros Hin. apply Hn, Hsub, Hin. Qed.

Lemma lookup_clear (gs : list nat) (n : nat) (caps : list (nat * jsstring)) :
  ~ In n gs ->
  lookup n (filter (fun p => negb (existsb (Nat.eqb (fst p)) gs)) caps) = lookup n caps.
Proof.
  intros Hn. induction caps as [|[k v] caps IH]; [reflexivity|].
  cbn [filter fst]. destruct (existsb (Nat.eqb k) gs) eqn:E; cbn [negb lookup].
  - destruct (k =? n) eqn:Ek; [|exact IH].
    apply Nat.eqb_eq in Ek. subst k. exfalso. apply Hn.
    apply existsb_exists in E. destruct E as (g & Hg & Eg).
    apply Nat.eqb_eq in Eg. now subst g.
  - now rewrite IH.
Qed.

Lemma same_outside_clear (gs : list nat) (x : MatchState) :
  same_outside gs x (clear_captures gs x).
Proof. intros n Hn. now apply lookup_clear. Qed.

Lemma repeat_opt_sound (mm : Matcher) (L : jsstring -> Prop) (gs : list nat) :
  sound_matcher mm L gs ->
  forall fuel max x c z, repeat_opt mm gs max fuel x c = Some z ->
    exists ws y, reaches x y (concat ws) /\ Forall L ws /\ same_outside gs x y /\ c y = Some z.
Proof.
  intros Hmm.
  assert (Base : forall x (c : Continuation) z, c x = Some z ->
            exists ws y, reaches x y (concat ws) /\ Forall L ws /\ same_outside gs x y /\
                         c y = Some z).
  { intros x c z H. exists [], x. repeat split; auto using reaches_refl, same_outside_refl. }
  induction fuel as [|fuel IH]; intros max x c z H; cbn [repeat_opt] in H.
  - destruct (max_is_zero max); now apply Base.
  - destruct (max_is_zero max); [now apply Base|].
    match type of H with
    | match ?e with _ => _ end = _ => destruct e as [z'|] eqn:E
    end; [|now apply Base].
    injection H as ->. apply Hmm in E.
    destruct E as (w & y & Hr & Hw & Hs & Hc).
    destruct (endIndex y =? endIndex x); [discriminate|].
    apply IH in Hc. destruct Hc as (ws & y' & Hr' & Hws & Hs' & Hc).
    exists (w :: ws), y'. repeat split.
    + apply (reaches_trans (y := y)); [exact Hr | exact Hr'].
    + apply (reaches_trans (y := y)); [exact Hr | exact Hr'].
    + now constructor.
    + apply same_outside_trans with y; [|exact Hs'].
      apply same_outside_trans with (clear_captures gs x);
        [apply same_outside_clear | exact Hs].
    + exact Hc.
Qed.

Lemma repeat_min_sound (mm : Matcher) (L : jsstring -> Prop) (gs : list nat) :
  sound_matcher mm L gs ->
  forall min max x c z, repeat_min mm gs min max x c = Some z ->
    exists ws y, reaches x y (concat ws) /\ Forall L ws /\ min <= length ws /\
                 same_outside gs x y /\ c y = Some z.
Proof.
  intros Hmm. induction min as [|min IH]; intros max x c z H; cbn [repeat_min] in H.
  - apply (repeat_opt_sound Hmm) in H. destruct H as (ws & y & Hr & Hws & Hs & Hc).
    exists ws, y. repeat split; auto; try apply Hr. lia.
  - apply Hmm in H. destruct H as (w & y & Hr & Hw & Hs & Hc).
    apply IH in Hc. destruct Hc as (ws & y' & Hr' & Hws & Hlen & Hs' & Hc).
    exists (w :: ws), y'. repeat split.
    + apply (reaches_trans (y := y)); [exact Hr | exact Hr'].
    + apply (reaches_trans (y := y)); [exact Hr | exact Hr'].
    + now constructor.
    + simpl. lia.
    + apply same_outside_trans with y; [|exact Hs'].
      apply same_outside_trans with (clear_captures gs x);
        [apply same_outside_clear | exact Hs].
    + exact Hc.
Qed.

(** Whatever the matcher answers, it has consumed a word of [lang], left
    the captures of foreign groups alone and set those of the groups
    that [defines] names. *)
Lemma m_sound (ic : bool) (r : regex) :
  forall x c z, m ic r x c = Some z ->
    exists w y, reaches x y w /\ lang ic r w /\ same_outside (groups r) x y /\
                (forall n, defines n r = true -> lookup n (captures y) <> None) /\
                c y = Some z.
Proof.
  induction r as [ | d | | inv atoms | r1 IH1 r2 IH2 | r1 IH1 r2 IH2 | r1 IH1 min max
                 | k r1 IH1 | r1 IH1 | | ];
    intros x c z H; cbn [m] in H.
  - exists [], x. repeat split; auto using same_outside_refl; try apply reaches_refl.
    discriminate.
  - destruct (rest x) as [|ch tl] eqn:E; [discriminate|].
    destruct (canonicalize ic ch =? canonicalize ic d)%N eqn:Ec; [|discriminate].
    exists [ch], (advance x tl). repeat split; auto using same_outside_refl.
    + simpl. lia.
    + exists ch. split; [reflexivity | now apply N.eqb_eq].
    + discriminate.
  - destruct (rest x) as [|ch tl] eqn:E; [discriminate|].
    destruct (is_line_terminator ch) eqn:Ec; [discriminate|].
    exists [ch], (advance x tl). repeat split; auto using same_outside_refl.
    + simpl. lia.
    + exists ch. now split.
    + discriminate.
  - destruct (rest x) as [|ch tl] eqn:E; [discriminate|].
    destruct (class_matches ic inv atoms ch) eqn:Ec; [|discriminate].
    exists [ch], (advance x tl). repeat split; auto using same_outside_refl.
    + simpl. lia.
    + exists ch. now split.
    + discriminate.
  - apply IH1 in H. destruct H as (w1 & y1 & Hr1 & Hw1 & Hs1 & Hd1 & H).
    apply IH2 in H. destruct H as (w2 & y2 & Hr2 & Hw2 & Hs2 & Hd2 & H).
    exists (w1 ++ w2), y2. repeat split.
    + apply (reaches_trans (y := y1)); [exact Hr1 | exact Hr2].
    + apply (reaches_trans (y := y1)); [exact Hr1 | exact Hr2].
    + now exists w1, w2.
    + cbn [groups]. apply same_outside_trans with y1.
      * eapply same_outside_mono; [|exact Hs1]. intros; apply in_or_app; now left.
      * eapply same_outside_mono; [|exact Hs2]. intros; apply in_or_app; now right.
    + intros n Hn. cbn [defines] in Hn. apply orb_prop in Hn. destruct Hn as [Hn|Hn].
      * now apply Hd2.
      * apply andb_prop in Hn. destruct Hn as [Hn Hout].
        rewrite Hs2; [now apply Hd1|].
        intros Hin. apply negb_true_iff in Hout.
        assert (E : existsb (Nat.eqb n) (groups r2) = true).
        { apply existsb_exists. exists n. split; [exact Hin | apply Nat.eqb_refl]. }
        congruence.
    + exact H.
  - destruct (m ic r1 x c) as [z'|] eqn:E.
    + injection H as ->. apply IH1 in E. destruct E as (w & y & Hr & Hw & Hs & Hd & H).
      exists w, y. repeat split; try apply Hr; auto.
      * now left.
      * eapply same_outside_mono; [|exact Hs]. intros; cbn [groups]; apply in_or_app; now left.
      * intros n Hn. cbn [defines] in Hn. apply andb_prop in Hn. now apply Hd.
    + apply IH2 in H. destruct H as (w & y & Hr & Hw & Hs & Hd & H).
      exists w, y. repeat split; try apply Hr; auto.
      * now right.
      * eapply same_outside_mono; [|exact Hs]. intros; cbn [groups]; apply in_or_app; now right.
      * intros n Hn. cbn [defines] in Hn. apply andb_prop in Hn. now apply Hd.
  - assert (Hmm : sound_matcher (m ic r1) (lang ic r1) (groups r1)).
    { intros x' c' z' H'. apply IH1 in H'.
      destruct H' as (w & y & Hr & Hw & Hs & _ & H'). now exists w, y. }
    apply (repeat_min_sound Hmm) in H.
    destruct H as (ws & y & Hr & Hws & Hlen & Hs & H).
    exists (concat ws), y. repeat split; try apply Hr; auto.
    + now exists ws.
    + discriminate.
  - apply IH1 in H. destruct H as (w & y & Hr & Hw & Hs & Hd & H).
    exists w, (set_capture k (firstn (endIndex y - endIndex x) (rest x)) y).
    repeat split; try apply Hr; auto.
    + intros n Hn. cbn [groups In] in Hn. cbn [set_capture captures lookup].
      destruct (k =? n) eqn:E.
      * apply Nat.eqb_eq in E. tauto.
      * apply Hs. tauto.
    + intros n Hn. cbn [defines] in Hn. cbn [set_capture captures lookup].
      destruct (k =? n) eqn:E; [discriminate|]. now apply Hd.
  - destruct (m ic r1 x Some); [discriminate|].
    exists [], x. repeat split; auto using same_outside_refl; try apply reaches_refl.
    discriminate.
  - destruct (endIndex x =? 0); [|discriminate].
    exists [], x. repeat split; auto using same_outside_refl; try apply reaches_refl.
    discriminate.
  - destruct (rest x) eqn:E; [|discriminate].
    exists [], x. repeat split; auto using same_outside_refl; try apply reaches_refl.
    discriminate.
Qed.

(** *** The iteration bound of the quantifier is never the reason to stop *)

Lemma repeat_opt_respects (mm : Matcher) (gs : list nat) :
  respects mm ->
  forall fuel max x c c', (forall y w, reaches x y w -> c y = c' y) ->
    repeat_opt mm gs max fuel x c = repeat_opt mm gs max fuel x c'.
Proof.
  intros Hmm. induction fuel as [|fuel IH]; intros max x c c' H; cbn [repeat_opt].
  - rewrite (H x [] (reaches_refl x)). reflexivity.
  - rewrite (H x [] (reaches_refl x)).
    destruct (max_is_zero max); [reflexivity|].
    erewrite Hmm; [reflexivity|].
    intros y w Hr. cbv beta. destruct (endIndex y =? endIndex x); [reflexivity|].
    apply IH. intros y' w' Hr'. apply (H y' (w ++ w')).
    apply (reaches_trans (y := y)); [exact Hr | exact Hr'].
Qed.

Lemma repeat_min_respects (mm : Matcher) (gs : list nat) :
  respects mm ->
  forall min max x c c', (forall y w, reaches x y w -> c y = c' y) ->
    repeat_min mm gs min max x c = repeat_min mm gs min max x c'.
Proof.
  intros Hmm. induction min as [|min IH]; intros max x c c' H; cbn [repeat_min].
  - now apply repeat_opt_respects.
  - apply Hmm. intros y w Hr. apply IH.
    intros y' w' Hr'. apply (H y' (w ++ w')).
    apply (reaches_trans (y := y)); [exact Hr | exact Hr'].
Qed.

Lemma m_respects (ic : bool) (r : regex) : respects (m ic r).
Proof.
  induction r as [ | d | | inv atoms | r1 IH1 r2 IH2 | r1 IH1 r2 IH2 | r1 IH1 min max
                 | k r1 IH1 | r1 IH1 | | ];
    intros x c c' H; cbn [m].
  - apply (H x [] (reaches_refl x)).
  - destruct (rest x) as [|ch tl] eqn:E; [reflexivity|].
    destruct (canonicalize ic ch =? canonicalize ic d)%N; [|reflexivity].
    apply (H _ [ch]). split; [exact E | simpl; lia].
  - destruct (rest x) as [|ch tl] eqn:E; [reflexivity|].
    destruct (is_line_terminator ch); [reflexivity|].
    apply (H _ [ch]). split; [exact E | simpl; lia].
  - destruct (rest x) as [|ch tl] eqn:E; [reflexivity|].
    destruct (class_matches ic inv atoms ch); [|reflexivity].
    apply (H _ [ch]). split; [exact E | simpl; lia].
  - apply IH1. intros y w Hr. apply IH2. intros y' w' Hr'.
    apply (H y' (w ++ w')). apply (reaches_trans (y := y)); [exact Hr | exact Hr'].
  - rewrite (IH1 x c c' H), (IH2 x c c' H). reflexivity.
  - apply repeat_min_respects; [exact IH1 | exact H].
  - apply IH1. intros y w Hr. apply (H _ w). exact Hr.
  - rewrite (H x [] (reaches_refl x)). reflexivity.
  - rewrite (H x [] (reaches_refl x)). reflexivity.
  - rewrite (H x [] (reaches_refl x)). reflexivity.
Qed.

Lemma m_fails_with_failing_continuation (ic : bool) (r : regex) (x : MatchState) :
  m ic r x (fun _ => None) = None.
Proof.
  destruct (m ic r x (fun _ => None)) as [z|] eqn:E; [|reflexivity].
  apply m_sound in E. destruct E as (w & y & _ & _ & _ & _ & E). discriminate E.
Qed.

(** At the end of the input an iteration cannot consume anything. *)
Lemma no_iteration_at_end (ic : bool) (r : regex) (gs : list nat) (x : MatchState)
      (k : Continuation) :
  rest x = [] ->
  m ic r (clear_captures gs x) (fun y => if endIndex y =? endIndex x then None else k y) = None.
Proof.
  intros Hx. transitivity (m ic r (clear_captures gs x) (fun _ => None));
    [|apply m_fails_with_failing_continuation].
  apply m_respects. intros y w [Hr1 Hr2]. cbn [clear_captures rest endIndex] in *.
  rewrite Hx in Hr1. symmetry in Hr1. apply app_eq_nil in Hr1. destruct Hr1 as [-> _].
  simpl in Hr2. rewrite Nat.add_0_r in Hr2. rewrite Hr2, Nat.eqb_refl. reflexivity.
Qed.

(** Any bound that is at least the length of the remaining input gives
    the same answer: the bound [length (rest x)] that [repeat_min] hands
    to [repeat_opt] cuts no iteration off. *)
Lemma repeat_opt_bound_irrelevant (ic : bool) (r : regex) (gs : list nat) :
  forall fuel1 fuel2 max x c,
    length (rest x) <= fuel1 -> length (rest x) <= fuel2 ->
    repeat_opt (m ic r) gs max fuel1 x c = repeat_opt (m ic r) gs max fuel2 x c.
Proof.
  assert (End : forall fuel max x c, rest x = [] ->
            repeat_opt (m ic r) gs max fuel x c = c x).
  { intros fuel max x c Hx. destruct fuel; cbn [repeat_opt].
    - now destruct (max_is_zero max).
    - destruct (max_is_zero max); [reflexivity|].
      now rewrite no_iteration_at_end. }
  induction fuel1 as [|fuel1 IH]; intros fuel2 max x c H1 H2.
  - assert (Hx : rest x = []) by (destruct (rest x); [reflexivity | simpl in H1; lia]).
    now rewrite !End.
  - destruct fuel2 as [|fuel2].
    + assert (Hx : rest x = []) by (destruct (rest x); [reflexivity | simpl in H2; lia]).
      now rewrite !End.
    + cbn [repeat_opt]. destruct (max_is_zero max); [reflexivity|].
      erewrite m_respects; [reflexivity|].
      intros y w [Hr1 Hr2]. cbv beta. cbn [clear_captures rest endIndex] in *.
      destruct (endIndex y =? endIndex x) eqn:E; [reflexivity|].
      apply Nat.eqb_neq in E.
      assert (Hlen : length (rest x) = length w + length (rest y))
        by (rewrite Hr1; apply length_app).
      apply IH; lia.
Qed.

Lemma exec_from_defines (re : RegExp) (s : jsstring) : forall i ma,
  exec_from re i s = Some ma ->
  forall n, defines n (source re) = true -> group n ma <> None.
Proof.
  induction s as [|a s IH]; intros i ma H n Hn; cbn [exec_from] in H;
    destruct (match_at re i _) as [y|] eqn:E;
    try discriminate; try (now apply IH with (S i)).
  all: injection H as <-; unfold match_at in E; apply m_sound in E;
    destruct E as (w & y' & _ & _ & _ & Hd & Hy); injection Hy as ->;
    unfold group; cbn [groupsOf]; now apply Hd.
Qed.

(** When the whole pattern is capture group 1, [match[1]] is a word of
    the group's body. *)
Lemma exec_from_group1 (ic : bool) (body : regex) (s : jsstring) : forall i ma,
  exec_from {| source := Group 1 body; ignoreCase := ic |} i s = Some ma ->
  exists w, group 1 ma = Some w /\ lang ic body w.
Proof.
  assert (Here : forall i s y,
            match_at {| source := Group 1 body; ignoreCase := ic |} i s = Some y ->
            exists w, lookup 1 (captures y) = Some w /\ lang ic body w).
  { intros i t y E. unfold match_at in E. cbn [source ignoreCase m] in E.
    apply m_sound in E. destruct E as (w & y' & [Hr1 Hr2] & Hw & _ & _ & Hy).
    injection Hy as <-. exists w. split; [|exact Hw].
    cbn [set_capture captures lookup Nat.eqb endIndex rest] in *.
    rewrite Hr2, Hr1. replace (i + length w - i) with (length w) by lia.
    now rewrite firstn_app, Nat.sub_diag, firstn_all, app_nil_r. }
  induction s as [|a s IH]; intros i ma H; cbn [exec_from] in H;
    destruct (match_at _ i _) as [y|] eqn:E;
    try discriminate; try (now apply IH with (S i)).
  all: injection H as <-; apply Here in E; exact E.
Qed.

Lemma canonical_letter_not_space (ch d : jschar) :
  canonicalize true ch = canonicalize true d -> in_range 65 122 d = true ->
  is_space ch = false.
Proof.
  intros H Hd. destruct (is_space ch) eqn:E; [|reflexivity].
  apply is_space_not_letter in E.
  unfold canonicalize, to_upper_char, is_lower, in_range in *.
  destruct ((97 <=? ch)%N && (ch <=? 122)%N) eqn:E1;
    destruct ((97 <=? d)%N && (d <=? 122)%N) eqn:E2;
    split_bools; lia.
Qed.

Lemma lang_lit_head (ic : bool) (a : ascii) (s : string) (w : jsstring) :
  lang ic (lit (String a s)) w ->
  exists ch tl, w = ch :: tl /\ canonicalize ic ch = canonicalize ic (chr a).
Proof.
  cbn. intros (w1 & w2 & -> & (ch & -> & Hc) & _). now exists ch, w2.
Qed.

(** A match of the institution phrase ends in a keyword, so it holds a
    character that is no whitespace. *)
Lemma institution_phrase_word (w : jsstring) :
  lang true (Seq (plus alpha_sp)
                 (words ["institute"; "college"; "university"; "school"]%string)) w ->
  exists ch, In ch w /\ is_space ch = false.
Proof.
  intros (w1 & w2 & -> & _ & H).
  assert (Hhead : exists ch tl d, w2 = ch :: tl /\
                    canonicalize true ch = canonicalize true d /\ in_range 65 122 d = true).
  { unfold words in H. cbn [map alts lang] in H.
    destruct H as [H|[H|[H|H]]]; apply lang_lit_head in H;
      destruct H as (ch & tl & -> & Hc); eexists ch, tl, _; (split; [reflexivity|]);
      (split; [exact Hc | reflexivity]). }
  destruct Hhead as (ch & tl & d & -> & Hc & Hd).
  exists ch. split.
  - apply in_or_app. right. now left.
  - now apply canonical_letter_not_space with d.
Qed.

Lemma trim_nonempty (s : jsstring) (ch : jschar) :
  In ch s -> is_space ch = false -> trim s <> [].
Proof.
  intros Hin Hc E. apply (trim_keeps _ _ Hin) in Hc. now rewrite E in Hc.
Qed.

(** [instMatch[1]] is defined and its trimmed text is not empty. *)
Lemma institution_phrase_group1 (s : jsstring) (ma : MatchArray) :
  str_match s institution_phrase = Some ma ->
  exists g, group 1 ma = Some g /\ trim g <> [].
Proof.
  intros H. apply exec_from_group1 in H. destruct H as (w & Hg & Hw).
  exists w. split; [exact Hg|].
  apply institution_phrase_word in Hw. destruct Hw as (ch & Hin & Hc).
  now apply trim_nonempty with ch.
Qed.

(** [rollMatch[1]] is defined and not empty. *)
Lemma roll_shape_group1 (s : jsstring) (ma : MatchArray) :
  str_match s (re (Group 1 (between alnum 8 12))) = Some ma ->
  exists g, group 1 ma = Some g /\ g <> [].
Proof.
  intros H. apply exec_from_group1 in H. destruct H as (w & Hg & Hw).
  exists w. split; [exact Hg|].
  destruct Hw as (ws & -> & Hws & Hlen).
  destruct ws as [|w1 ws]; [simpl in Hlen; lia|].
  apply Forall_inv in Hws. destruct Hws as (ch & -> & _). discriminate.
Qed.

(** In the two receipt patterns the groups read by the code take part
    in every match. *)
Lemma receipt_name_group1 (s : jsstring) (ma : MatchArray) :
  str_match s receipt_name = Some ma -> group 1 ma <> None.
Proof. intros H. now apply (exec_from_defines _ _ _ H). Qed.

Lemma month_day_comma_year_groups (s : jsstring) (ma : MatchArray) :
  str_match s month_day_comma_year = Some ma -> group 1 ma <> None /\ group 2 ma <> None.
Proof. intros H. split; now apply (exec_from_defines _ _ _ H). Qed.

(* ================================================================== *)
(** ** The record and its passes *)

Lemma get_set (f g : Field) (v : option jsstring) (e : ParsedData) :
  get_field f (set_field g v e) = if field_eqb g f then v else get_field f e.
Proof. destruct f, g; reflexivity. Qed.

Lemma field_eqb_eq (f g : Field) : field_eqb f g = true -> f = g.
Proof. destruct f, g; (reflexivity || discriminate). Qed.

Lemma truthy_false_absent (v : option jsstring) :
  truthy v = false -> (forall u, v = Some u -> u <> []) -> v = None.
Proof.
  destruct v as [[|c u]|]; intros H Hne; try reflexivity; try discriminate.
  now destruct (Hne [] eq_refl).
Qed.

Lemma fills_gaps_refl (e : ParsedData) : fills_gaps_only e e.
Proof. intros f. now right. Qed.

Lemma fills_gaps_trans (e1 e2 e3 : ParsedData) :
  fills_gaps_only e1 e2 -> fills_gaps_only e2 e3 -> fills_gaps_only e1 e3.
Proof.
  intros H12 H23 f. destruct (H12 f) as [H|H]; [now left|].
  destruct (H23 f) as [H'|H']; [left | right]; congruence.
Qed.

(** Assigning a falsy field whose value cannot be [''] fills a gap. *)
Lemma set_fills_gap (g : Field) (v : option jsstring) (e : ParsedData) :
  truthy (get_field g e) = false ->
  (forall u, get_field g e = Some u -> u <> []) ->
  fills_gaps_only e (set_field g v e).
Proof.
  intros Ht Hne f. rewrite get_set. destruct (field_eqb g f) eqn:E; [|now right].
  apply field_eqb_eq in E. subst f. left. now apply truthy_false_absent.
Qed.

Lemma set_no_empty (g : Field) (v : option jsstring) (e : ParsedData) :
  no_empty_field e -> (forall u, v = Some u -> u <> []) ->
  no_empty_field (set_field g v e).
Proof.
  intros He Hv f u. rewrite get_set. destruct (field_eqb g f); [apply Hv | apply He].
Qed.

Lemma positive_length_nonempty (n : nat) (v : jsstring) : (n <? length v) = true -> v <> [].
Proof. intros H E. subst v. discriminate H. Qed.

Lemma usable_group_nonempty (mt : option MatchArray) (v : jsstring) :
  usable_group mt = Some v -> v <> [].
Proof.
  unfold usable_group. destruct mt as [ma|]; [|discriminate].
  destruct (truthy (group 1 ma)); [|discriminate].
  destruct (group 1 ma) as [g|]; [|discriminate].
  destruct (2 <? length (trim g)) eqn:E; [|discriminate].
  intros H. injection H as <-. now apply positive_length_nonempty with 2.
Qed.

(** *** The primary extractor stores non-empty values only *)

Lemma try_patterns_nonempty (field : Field) (line : jsstring) (ps : list RegExp) (v : jsstring) :
  try_patterns field line ps = Some v -> v <> [].
Proof.
  induction ps as [|p ps IH]; cbn [try_patterns]; [discriminate|].
  destruct (usable_group (str_match line p)) as [value|]; [|exact IH].
  destruct (0 <? length (cleanValue field value)) eqn:E; [|exact IH].
  intros H. injection H as <-. now apply positive_length_nonempty with 0.
Qed.

Lemma try_lines_nonempty (field : Field) (ls : list jsstring) (ps : list RegExp) (v : jsstring) :
  try_lines field ls ps = Some v -> v <> [].
Proof.
  induction ls as [|l ls IH]; cbn [try_lines]; [discriminate|].
  destruct (try_patterns field l ps) as [value|] eqn:E; [|exact IH].
  intros H. injection H as <-. now apply try_patterns_nonempty in E.
Qed.

Lemma extractField_no_empty (ls : list jsstring) (e : ParsedData) (entry : Field * list RegExp) :
  no_empty_field e -> no_empty_field (extractField ls e entry).
Proof.
  intros He. unfold extractField.
  destruct (try_lines (fst entry) ls (snd entry)) as [value|] eqn:E; [|exact He].
  apply set_no_empty; [exact He|]. intros u Hu. injection Hu as <-.
  now apply try_lines_nonempty in E.
Qed.

Lemma primaryExtract_no_empty (ls : list jsstring) : no_empty_field (primaryExtract ls).
Proof.
  unfold primaryExtract.
  assert (H : no_empty_field empty_data) by (intros f v; destruct f; discriminate).
  revert H. generalize empty_data. induction patterns as [|entry ps IH]; intros e He.
  - exact He.
  - cbn [fold_left]. apply IH. now apply extractField_no_empty.
Qed.

(** *** Each fallback statement fills gaps only *)

Lemma rollFallback_step (cleaned : jsstring) (e : ParsedData) :
  no_empty_field e ->
  fills_gaps_only e (rollFallback cleaned e) /\ no_empty_field (rollFallback cleaned e).
Proof.
  intros He. unfold rollFallback.
  destruct (negb (truthy (studentRoll e)) && negb (truthy (certificateNumber e))) eqn:G;
    [|split; [apply fills_gaps_refl | exact He]].
  destruct (str_match cleaned _) as [rollMatch|] eqn:M;
    [|split; [apply fills_gaps_refl | exact He]].
  apply andb_prop in G. destruct G as [G _]. apply negb_true_iff in G.
  apply roll_shape_group1 in M. destruct M as (g & Hg & Hne). rewrite Hg. split.
  - apply set_fills_gap; [exact G | apply (He FStudentRoll)].
  - apply set_no_empty; [exact He|]. intros u Hu. now injection Hu as <-.
Qed.

Lemma institutionFallback_step (cleaned : jsstring) (e : ParsedData) :
  no_empty_field e ->
  fills_gaps_only e (institutionFallback cleaned e) /\
  no_empty_field (institutionFallback cleaned e).
Proof.
  intros He. unfold institutionFallback.
  destruct (negb (truthy (institutionName e))) eqn:G;
    [|split; [apply fills_gaps_refl | exact He]].
  destruct (str_match cleaned institution_phrase) as [instMatch|] eqn:M;
    [|split; [apply fills_gaps_refl | exact He]].
  apply negb_true_iff in G.
  apply institution_phrase_group1 in M. destruct M as (g & Hg & Hne). rewrite Hg. split.
  - apply set_fills_gap; [exact G | apply (He FInstitutionName)].
  - apply set_no_empty; [exact He|]. intros u Hu. now injection Hu as <-.
Qed.

Lemma form_patterns_nonempty (field : Field) (text : jsstring) (ps : list RegExp) (v : jsstring) :
  form_patterns field text ps = Some v -> v <> [].
Proof.
  induction ps as [|p ps IH]; cbn [form_patterns]; [discriminate|].
  destruct (usable_group (str_match text p)) as [value|] eqn:U; [|exact IH].
  assert (Hv : Some value = Some v -> v <> []).
  { intros H. injection H as <-. now apply usable_group_nonempty in U. }
  destruct field; try exact Hv.
  destruct (test valid_surname (dropInstitutionWords value)
            && (5 <? length (dropInstitutionWords value))) eqn:G; [|exact IH].
  apply andb_prop in G. destruct G as [_ G].
  intros H. injection H as <-. now apply positive_length_nonempty with 5.
Qed.

Lemma formField_step (text : jsstring) (e : ParsedData) (entry : Field * list RegExp) :
  no_empty_field e ->
  fills_gaps_only e (formField text e entry) /\ no_empty_field (formField text e entry).
Proof.
  intros He. unfold formField.
  destruct (negb (truthy (get_field (fst entry) e))) eqn:G;
    [|split; [apply fills_gaps_refl | exact He]].
  destruct (form_patterns (fst entry) text (snd entry)) as [value|] eqn:M;
    [|split; [apply fills_gaps_refl | exact He]].
  apply negb_true_iff in G. split.
  - apply set_fills_gap; [exact G | apply He].
  - apply set_no_empty; [exact He|]. intros u Hu. injection Hu as <-.
    now apply form_patterns_nonempty in M.
Qed.

Lemma extractFromFormFields_step (text : jsstring) (e : ParsedData) :
  no_empty_field e ->
  fills_gaps_only e (extractFromFormFields text e) /\
  no_empty_field (extractFromFormFields text e).
Proof.
  unfold extractFromFormFields. revert e.
  induction formPatterns as [|entry ps IH]; intros e He; cbn [fold_left].
  - split; [apply fills_gaps_refl | exact He].
  - destruct (formField_step text entry He) as [H1 H2].
    destruct (IH _ H2) as [H3 H4]. split; [|exact H4].
    now apply fills_gaps_trans with (formField text e entry).
Qed.

(** The receipt-name statement may store [''], but in studentName only. *)
Lemma receiptNameFallback_step (cleaned : jsstring) (e : ParsedData) :
  no_empty_field e ->
  fills_gaps_only e (receiptNameFallback cleaned e) /\
  (forall v, dateIssued (receiptNameFallback cleaned e) = Some v -> v <> []).
Proof.
  intros He. unfold receiptNameFallback.
  destruct (negb (truthy (studentName e))) eqn:G;
    [|split; [apply fills_gaps_refl | apply (He FDateIssued)]].
  destruct (str_match cleaned receipt_name) as [ma|];
    [|split; [apply fills_gaps_refl | apply (He FDateIssued)]].
  destruct (group 1 ma) as [g|];
    [|split; [apply fills_gaps_refl | apply (He FDateIssued)]].
  apply negb_true_iff in G. split.
  - apply set_fills_gap; [exact G | apply (He FStudentName)].
  - apply (He FDateIssued).
Qed.

Lemma receiptDateFallback_step (cleaned : jsstring) (e : ParsedData) :
  (forall v, dateIssued e = Some v -> v <> []) ->
  fills_gaps_only e (receiptDateFallback cleaned e).
Proof.
  intros He. unfold receiptDateFallback.
  destruct (negb (truthy (dateIssued e))) eqn:G; [|apply fills_gaps_refl].
  destruct (str_match cleaned month_day_comma_year) as [ma|]; [|apply fills_gaps_refl].
  destruct (findIndex _ monthNames) as [monthIndex|]; [|apply fills_gaps_refl].
  destruct (group 1 ma) as [day|]; [|apply fills_gaps_refl].
  destruct (group 2 ma) as [year|]; [|apply fills_gaps_refl].
  apply negb_true_iff in G. now apply set_fills_gap.
Qed.

Lemma stage_unfold (text : jsstring) :
  let c := cleanedText text in
  let e0 := primaryExtract (lines_of c) in
  let e1 := rollFallback c e0 in
  let e2 := institutionFallback c e1 in
  let e3 := extractFromFormFields c e2 in
  let e4 := receiptNameFallback c e3 in
  let e5 := receiptDateFallback c e4 in
  stage text 0 = e0 /\ stage text 1 = e1 /\ stage text 2 = e2 /\ stage text 3 = e3 /\
  stage text 4 = e4 /\ (forall k, stage text (S (S (S (S (S k))))) = e5).
Proof.
  repeat split. intros k. unfold stage, fallbacks, run_passes.
  cbn [firstn]. now rewrite firstn_nil.
Qed.

(** One fallback statement further along parseCertificateText. *)
Lemma stage_step (text : jsstring) (k : nat) :
  fills_gaps_only (stage text k) (stage text (S k)).
Proof.
  destruct (stage_unfold text) as (E0 & E1 & E2 & E3 & E4 & E5).
  pose proof (primaryExtract_no_empty (lines_of (cleanedText text))) as H0.
  destruct (rollFallback_step (cleanedText text) H0) as [G1 H1].
  destruct (institutionFallback_step (cleanedText text) H1) as [G2 H2].
  destruct (extractFromFormFields_step (cleanedText text) H2) as [G3 H3].
  destruct (receiptNameFallback_step (cleanedText text) H3) as [G4 H4].
  pose proof (receiptDateFallback_step (cleanedText text) _ H4) as G5.
  destruct k as [|[|[|[|[|k]]]]].
  - rewrite E0, E1. exact G1.
  - rewrite E1, E2. exact G2.
  - rewrite E2, E3. exact G3.
  - rewrite E3, E4. exact G4.
  - rewrite E4, (E5 0). exact G5.
  - rewrite (E5 k), (E5 (S k)). apply fills_gaps_refl.
Qed.

Lemma stage_later (text : jsstring) (f : Field) (k d : nat) :
  get_field f (stage text k) = None \/
  get_field f (stage text (k + d)) = get_field f (stage text k).
Proof.
  induction d as [|d IH].
  - right. now rewrite Nat.add_0_r.
  - destruct IH as [IH|IH]; [now left|].
    rewrite Nat.add_succ_r.
    destruct (stage_step text (k + d) f) as [H|H]; [left | right]; congruence.
Qed.

(* ================================================================== *)
(** ** The matcher on small inputs *)

(** Greedy repetition gives back characters: any characters in group 1,
    then an X, on "aXbXc". *)
Example greedy_backtracks :
  option_map (group 1) (str_match (js "aXbXc") (re (Seq (Group 1 (star Dot)) (lit "X"))))
  = Some (Some (js "aXb")).
Proof. vm_compute. reflexivity. Qed.

(** [split(/[\s,]+/)], also with separators at the ends. *)
Example split_on_separator_runs :
  split (re (plus (cls [CSpace; c_ ","]))) (js "june 27, 2025") = [js "june"; js "27"; js "2025"] /\
  split (re (plus (cls [CSpace; c_ ","]))) (js "27, 2025") = [js "27"; js "2025"] /\
  split (re (plus (cls [CSpace; c_ ","]))) (js ", a,") = [[]; js "a"; []].
Proof. repeat split; vm_compute; reflexivity. Qed.

(** The negative lookahead of the last studentName pattern skips every
    start from which an institution word is still ahead. *)
Example lookahead_skips_institution :
  usable_group (str_match (js "Mr. COLLEGEKUMAR") (nth 5 studentName_patterns (re Empty)))
  = Some (js "OLLEGEKUMAR").
Proof. vm_compute. reflexivity. Qed.

(** A class of capitals matches small letters under the [i] flag, and
    [$] holds at the end of the text only. *)
Example ignore_case_and_anchor :
  usable_group (str_match (js "roll no: ab-12 x") (nth 0 studentRoll_patterns (re Empty)))
  = Some (js "ab-12") /\
  replace (re (seqs [lit "("; star (ncls [c_ ")"]); lit ")"; AssertEnd])) [] (js "A (x) B (OPEN)")
  = js "A (x) B " /\
  replace (re_i (seqs [AssertStart; Group 1 honorific; star space])) [] (js "MRS. X mr. Y")
  = js "X mr. Y".
Proof. repeat split; vm_compute; reflexivity. Qed.

Example institution_words_dropped :
  dropInstitutionWords (js "XYZ Institute of Technology") = js "XYZ of" /\
  test valid_surname (js "joshix") = true /\
  test valid_surname (js "smith") = false.
Proof. repeat split; vm_compute; reflexivity. Qed.

(* ================================================================== *)
(** ** extractText on a rejected file type *)

Section ExtractTextFacts.

Variable number : Type.
Variable Math_round : number -> number.
Variable clock : list Call -> Z.
Variable reader : File -> option jsstring.
Variable tesseract : jsstring -> Error + (jsstring * number).

(** The type check throws inside the [try] block, so its error is
    caught, logged and replaced by the handler's. *)
Lemma extractText_invalid_type (file : File) (w : list Call) :
  isValidFileType file = false ->
  extractText Math_round clock reader tesseract file w =
  (Thrown (mkError failure_message),
   w ++ [DateNow; ConsoleError (mkError unsupported_message)]).
Proof.
  intros H. unfold extractText, await, try_catch, Date_now, console_error, throw.
  rewrite H. cbn [negb]. now rewrite <- app_assoc.
Qed.

End ExtractTextFacts.

(* ================================================================== *)
(** ** The claims *)

(** C1 (the code departs from it): on the three-line receipt text
    parseCertificateText returns studentName "NIKHIL SUREDRA PATIL" and
    certificateNumber "123456" as claimed, but dateIssued is "27, 2025",
    not "27/06/2025"; no other field is set. *)
Theorem receipt_scenario :
  parseCertificateText receipt_text =
  {| studentName := Some (js "NIKHIL SUREDRA PATIL");
     studentRoll := None;
     certificateNumber := Some (js "123456");
     institutionName := None;
     courseName := None;
     marks := None;
     dateIssued := Some (js "27, 2025");
     uin := None |}.
Proof. vm_compute. reflexivity. Qed.

(** C2 (the code departs from it): for the text "June 27, 2025" the fourth
    dateIssued pattern captures "27, 2025" without the month, the comma
    branch finds two parts only and leaves the value as it is, so
    dateIssued is "27, 2025"; the clean-up applied to the whole text
    "June 27, 2025" would give "27/06/2025".  The numeric "15/08/2024"
    comes out unchanged. *)
Theorem date_normalisation :
  dateIssued (parseCertificateText (js "June 27, 2025")) = Some (js "27, 2025") /\
  usable_group (str_match (js "June 27, 2025") month_then_day_year) = Some (js "27, 2025") /\
  cleanValue FDateIssued (js "27, 2025") = js "27, 2025" /\
  cleanValue FDateIssued (js "June 27, 2025") = js "27/06/2025" /\
  dateIssued (parseCertificateText (js "15/08/2024")) = Some (js "15/08/2024").
Proof. repeat split; vm_compute; reflexivity. Qed.

(** C3: along parseCertificateText, with stage 0 the result of the primary
    extractor and stage k the record after k fallback statements (stage 5
    is the returned record), a field is at every stage either absent or
    left with the same value by all later statements: a value set by the
    primary extractor is never changed, and each fallback statement
    assigns only to fields that are absent when it runs. *)
Theorem fallbacks_never_overwrite (text : jsstring) (f : Field) (k d : nat) :
  stage text 0 = primaryExtract (lines_of (cleanedText text)) /\
  stage text 5 = parseCertificateText text /\
  (get_field f (stage text k) = None \/
   get_field f (stage text (k + d)) = get_field f (stage text k)).
Proof.
  destruct (stage_unfold text) as (E0 & _ & _ & _ & _ & E5).
  split; [exact E0|]. split; [|apply stage_later].
  unfold parseCertificateText. exact (E5 0).
Qed.

(** C4, the claim as stated fails: on [two_names_text] the source order
    gives studentName "JOSHIX" (from the form-field pass), the listed
    order with the form-field pass last gives "ANITA REDDY". *)
Lemma listed_order_differs :
  studentName (parseCertificateText two_names_text) = Some (js "JOSHIX") /\
  studentName (parse_in_listed_order two_names_text) = Some (js "ANITA REDDY") /\
  parseCertificateText two_names_text <> parse_in_listed_order two_names_text.
Proof.
  assert (A : studentName (parseCertificateText two_names_text) = Some (js "JOSHIX"))
    by (vm_compute; reflexivity).
  assert (B : studentName (parse_in_listed_order two_names_text) = Some (js "ANITA REDDY"))
    by (vm_compute; reflexivity).
  repeat split; auto.
  intros E. rewrite E, B in A. discriminate A.
Qed.

(** C4, amended: after the primary extractor the fallbacks run in the
    order generic roll scan, generic institution scan, form-field pass,
    receipt-name pass, receipt-date pass; the form-field pass comes before
    both receipt passes, and whatever the record holds after it is kept by
    them. *)
Theorem fallback_order (text : jsstring) (f : Field) :
  let c := cleanedText text in
  let after_form_fields :=
    extractFromFormFields c
      (institutionFallback c (rollFallback c (primaryExtract (lines_of c)))) in
  parseCertificateText text =
    receiptDateFallback c (receiptNameFallback c after_form_fields) /\
  (get_field f after_form_fields = None \/
   get_field f (parseCertificateText text) = get_field f after_form_fields).
Proof.
  cbv zeta. split; [unfold parseCertificateText; reflexivity|].
  destruct (stage_unfold text) as (_ & _ & _ & E3 & _ & E5).
  cbv zeta in E3, E5. rewrite <- E3.
  replace (parseCertificateText text) with (stage text (3 + 2)).
  - apply stage_later.
  - unfold parseCertificateText. exact (E5 0).
Qed.

(** C5: for "XYZ Institute of Technology" followed on the next line by
    "Mr. RAJESH KUMAR", studentName is "RAJESH KUMAR", and it contains
    neither "Institute" nor "Technology" (in any letter case). *)
Theorem name_not_institution :
  let name := studentName (parseCertificateText institute_then_name_text) in
  name = Some (js "RAJESH KUMAR") /\
  option_map (fun n => includes n (js "Institute")) name = Some false /\
  option_map (fun n => includes n (js "Technology")) name = Some false /\
  option_map (fun n => includes (toLowerCase n) (js "institute")) name = Some false /\
  option_map (fun n => includes (toLowerCase n) (js "technology")) name = Some false.
Proof. repeat split; vm_compute; reflexivity. Qed.

(** C6, the claim as stated fails: in "a_b" the underscore is outside
    the allow-list [A-Za-z0-9\s\-.,/:()] and still is in the cleaned text. *)
Lemma underscore_survives :
  cleanedText (js "a_b") = js "a_b" /\
  normalize_text spec_allow_listed (js "a_b") = js "a b" /\
  In (chr "_") (cleanedText (js "a_b")) /\
  spec_allow_listed (chr "_") = false.
Proof.
  assert (A : cleanedText (js "a_b") = js "a_b") by (vm_compute; reflexivity).
  repeat split; try (vm_compute; reflexivity).
  rewrite A. vm_compute. tauto.
Qed.

(** C6, amended: the cleaned text is the raw text with every character
    outside [A-Za-z0-9_\s\-.,/:()] (the listed class and the underscore,
    which [\w] contains) replaced by a space, every run of whitespace
    collapsed to one space, and trimmed; no character outside that class
    is left in it; the lines are its pieces between line breaks, trimmed,
    and the empty ones dropped. *)
Theorem normalizer_allow_list (text : jsstring) :
  cleanedText text = trim (collapse_ws false (blank_unless allow_listed text)) /\
  Forall (fun c => allow_listed c = true) (cleanedText text) /\
  single_spaced false (cleanedText text) = true /\
  trimmed (cleanedText text) /\
  lines_of (cleanedText text) =
    filter (fun line => 0 <? length line)
           (map trim (split_char (chr "010") (cleanedText text))) /\
  Forall (fun line => trimmed line /\ line <> []) (lines_of (cleanedText text)) /\
  (forall c, allow_listed c = spec_allow_listed c || (c =? chr "_")%N).
Proof.
  split; [apply cleanedText_normalize|].
  split; [apply cleanedText_allowed|].
  split; [apply cleanedText_single_spaced|].
  split; [apply cleanedText_trimmed|].
  split; [reflexivity|].
  split; [apply lines_of_trimmed|].
  intros c. unfold allow_listed, spec_allow_listed, is_word.
  change (chr "_") with 95%N. btauto.
Qed.

(** C7 (the code departs from it): extractText on a file of type
    "application/pdf" makes no OCR call, but the caller does not get the
    unsupported-file-type error: that error is caught inside extractText,
    written to the console, and the generic extraction-failure error is
    thrown in its place. *)
Theorem pdf_rejected_with_generic_message
    (number : Type) (Math_round : number -> number) (clock : list Call -> Z)
    (reader : File -> option jsstring) (tesseract : jsstring -> Error + (jsstring * number))
    (data : list N) (w : list Call) :
  isValidFileType (pdf_file data) = false /\
  extractText Math_round clock reader tesseract (pdf_file data) w =
    (Thrown (mkError failure_message),
     w ++ [DateNow; ConsoleError (mkError unsupported_message)]) /\
  existsb is_recognize [DateNow; ConsoleError (mkError unsupported_message)] = false /\
  failure_message <> unsupported_message.
Proof.
  assert (H : isValidFileType (pdf_file data) = false) by reflexivity.
  split; [exact H|]. split; [now apply extractText_invalid_type|].
  split; [reflexivity|]. discriminate.
Qed.

(** C8: validateExtractedData reports one message for a missing
    studentName, one when both studentRoll and certificateNumber are
    missing, one for a missing institutionName (missing: absent or ''),
    and isValid says that there is no message; the empty record gets the
    three messages, the record with studentName, studentRoll and
    institutionName none. *)
Theorem validator_requirements (data : ParsedData) :
  let r := validateExtractedData data in
  length (errors r) =
    Nat.b2n (negb (truthy (studentName data)))
    + Nat.b2n (negb (truthy (studentRoll data)) && negb (truthy (certificateNumber data)))
    + Nat.b2n (negb (truthy (institutionName data))) /\
  isValid r = (length (errors r) =? 0) /\
  isValid r = truthy (studentName data)
              && (truthy (studentRoll data) || truthy (certificateNumber data))
              && truthy (institutionName data) /\
  validateExtractedData empty_data =
    {| isValid := false;
       errors := [js "Student name not found";
                  js "Roll number or certificate number not found";
                  js "Institution name not found"] |} /\
  validateExtractedData
    {| studentName := Some (js "A"); studentRoll := Some (js "B");
       certificateNumber := None; institutionName := Some (js "C");
       courseName := None; marks := None; dateIssued := None; uin := None |} =
    {| isValid := true; errors := [] |}.
Proof.
  cbv zeta. unfold validateExtractedData.
  destruct (truthy (studentName data)), (truthy (studentRoll data)),
    (truthy (certificateNumber data)), (truthy (institutionName data));
    repeat split; reflexivity.
Qed.

(** C9: normalising the cleaned text again changes neither the cleaned
    text nor the lines. *)
Theorem normalization_idempotent (x : jsstring) :
  cleanedText (cleanedText x) = cleanedText x /\
  lines_of (cleanedText (cleanedText x)) = lines_of (cleanedText x).
Proof.
  assert (A : cleanedText (cleanedText x) = cleanedText x).
  { rewrite !cleanedText_normalize. apply normalize_text_idem. reflexivity. }
  split; [exact A | now rewrite A].
Qed.

(** C10: the cleaned text holds no line break, so the lines built by
    parseCertificateText are the cleaned text alone when it is not empty
    and no line otherwise, at most one line, and the loop over the lines
    runs the patterns of a field on the whole cleaned text. *)
Theorem lines_at_most_one (text : jsstring) :
  existsb (N.eqb (chr "010")) (cleanedText text) = false /\
  lines_of (cleanedText text) =
    match cleanedText text with
    | [] => []
    | _ :: _ => [cleanedText text]
    end /\
  length (lines_of (cleanedText text)) <= 1 /\
  (forall field fieldPatterns,
     try_lines field (lines_of (cleanedText text)) fieldPatterns =
     match cleanedText text with
     | [] => None
     | _ :: _ => try_patterns field (cleanedText text) fieldPatterns
     end).
Proof.
  pose proof (lines_of_cleanedText text) as L.
  split; [|split; [exact L|split]].
  - destruct (existsb (N.eqb (chr "010")) (cleanedText text)) eqn:E; [|reflexivity].
    apply existsb_exists in E. destruct E as (c & Hin & Hc).
    apply N.eqb_eq in Hc. symmetry in Hc. now destruct (cleanedText_no_newline text Hin).
  - rewrite L. destruct (cleanedText text); simpl; lia.
  - intros field ps. rewrite L. destruct (cleanedText text) as [|c s]; [reflexivity|].
    cbn [try_lines]. now destruct (try_patterns field (c :: s) ps).
Qed.

(* ================================================================== *)
(** ** Further properties: extractText and isValidFileType *)

Lemma jseqb_eq (a b : jsstring) : jseqb a b = true -> a = b.
Proof.
  revert b. induction a as [|x a IH]; intros [|y b]; cbn [jseqb]; try discriminate;
    [reflexivity|].
  intros H. apply andb_prop in H. destruct H as [H1 H2].
  apply N.eqb_eq in H1. subst y. f_equal. now apply IH.
Qed.

Lemma jseqb_refl (a : jsstring) : jseqb a a = true.
Proof. induction a as [|x a IH]; cbn [jseqb]; [reflexivity|]. now rewrite N.eqb_refl. Qed.

Lemma to_lower_upper (c : jschar) : to_lower_char (to_upper_char c) = to_lower_char c.
Proof.
  unfold to_lower_char, to_upper_char, is_upper, is_lower, in_range.
  destruct ((97 <=? c)%N && (c <=? 122)%N) eqn:E1; [|reflexivity].
  destruct ((65 <=? c - 32)%N && (c - 32 <=? 90)%N) eqn:E2;
    destruct ((65 <=? c)%N && (c <=? 90)%N) eqn:E3; split_bools; lia.
Qed.

Lemma to_lower_lower (c : jschar) : to_lower_char (to_lower_char c) = to_lower_char c.
Proof.
  unfold to_lower_char, is_upper, in_range.
  destruct ((65 <=? c)%N && (c <=? 90)%N) eqn:E1; [|now rewrite E1].
  destruct ((65 <=? c + 32)%N && (c + 32 <=? 90)%N) eqn:E2; split_bools; lia.
Qed.

(** X1: whether a file is accepted depends on its declared type only, read
    without regard to letter case, and every accepted type is an
    [image/...] type. *)
Theorem isValidFileType_by_type (file : File) (content : list N) :
  isValidFileType {| type := map to_upper_char (type file); bytes := content |}
    = isValidFileType file /\
  isValidFileType {| type := toLowerCase (type file); bytes := content |}
    = isValidFileType file /\
  (isValidFileType file = true ->
   starts_with (js "image/") (toLowerCase (type file)) = true).
Proof.
  unfold isValidFileType. cbn [type]. repeat split.
  - unfold toLowerCase. rewrite map_map.
    now rewrite (map_ext _ _ to_lower_upper).
  - unfold toLowerCase. rewrite map_map.
    now rewrite (map_ext _ _ to_lower_lower).
  - intros H. apply existsb_exists in H. destruct H as (v & Hin & Hv).
    apply jseqb_eq in Hv. rewrite Hv. clear Hv.
    unfold validTypes in Hin. cbn [map In] in Hin.
    repeat (destruct Hin as [<-|Hin]; [vm_compute; reflexivity|]).
    destruct Hin.
Qed.

Lemma isValidFileType_by_type_witness :
  starts_with (js "image/") (toLowerCase (js "IMAGE/PNG")) = true.
Proof.
  apply (proj2 (proj2 (isValidFileType_by_type
                         {| type := js "IMAGE/PNG"; bytes := [] |} []))).
  vm_compute. reflexivity.
Defined.

(** X2: whatever the clock, the file reader and the OCR engine do,
    extractText either returns a record whose parsedData is
    parseCertificateText of its rawText, taken from the engine's answer on
    the data URL of a file of an accepted type, or throws the one generic
    extraction-failure error; the error of the reader or of the engine
    never reaches the caller. *)
Theorem extractText_outcome
    (number : Type) (Math_round : number -> number) (clock : list Call -> Z)
    (reader : File -> option jsstring) (tesseract : jsstring -> Error + (jsstring * number))
    (file : File) (w : list Call) :
  match fst (extractText Math_round clock reader tesseract file w) with
  | Returned d =>
      isValidFileType file = true /\
      parsedData d = parseCertificateText (rawText d) /\
      exists url conf,
        reader file = Some url /\ tesseract url = inr (rawText d, conf) /\
        confidence d = Math_round conf
  | Thrown e => e = mkError failure_message
  end.
Proof.
  unfold extractText, await, try_catch, Date_now, console_error, throw, resolve,
    fileToDataURL, Tesseract_recognize.
  destruct (isValidFileType file); cbn [negb fst]; [|reflexivity].
  destruct (reader file) as [url|] eqn:R; cbn [fst]; [|reflexivity].
  destruct (tesseract url) as [e|[text conf]] eqn:T; cbn [fst snd rawText parsedData confidence];
    [reflexivity|].
  repeat split. exists url, conf. now repeat split.
Qed.

(** X3: extractText appends its outside calls to the log, calls the OCR
    engine at most once, and calls it exactly when the file type is
    accepted and the file could be read. *)
Theorem extractText_ocr_calls
    (number : Type) (Math_round : number -> number) (clock : list Call -> Z)
    (reader : File -> option jsstring) (tesseract : jsstring -> Error + (jsstring * number))
    (file : File) (w : list Call) :
  exists calls,
    snd (extractText Math_round clock reader tesseract file w) = w ++ calls /\
    length (filter is_recognize calls) <= 1 /\
    existsb is_recognize calls =
      isValidFileType file && match reader file with Some _ => true | None => false end.
Proof.
  unfold extractText, await, try_catch, Date_now, console_error, throw, resolve,
    fileToDataURL, Tesseract_recognize.
  destruct (isValidFileType file); cbn [negb andb snd].
  - destruct (reader file) as [url|]; cbn [snd].
    + destruct (tesseract url) as [e|r]; cbn [snd]; rewrite <- !app_assoc; cbn [app];
        eexists; (split; [reflexivity|]); cbn; split; (lia || reflexivity).
    + rewrite <- !app_assoc; cbn [app].
      eexists; (split; [reflexivity|]); cbn; split; (lia || reflexivity).
  - rewrite <- !app_assoc; cbn [app].
    eexists; (split; [reflexivity|]); cbn; split; (lia || reflexivity).
Qed.

(* ================================================================== *)
(** ** Further properties: formatExtractedData *)

Lemma nonblank_join_cons (sep x : jsstring) (l : list jsstring) :
  nonblank x = true -> nonblank (join sep (x :: l)) = true.
Proof.
  destruct x as [|c x]; [discriminate|]. intros _. cbn [join].
  now destruct l.
Qed.

Lemma split_on_app_no_sep (sep : jschar) (x cur s : jsstring) :
  (forall c, In c x -> c <> sep) ->
  split_on sep cur (x ++ s) = split_on sep (cur ++ x) s.
Proof.
  revert cur. induction x as [|c x IH]; intros cur H; cbn [app].
  - now rewrite app_nil_r.
  - cbn [split_on]. destruct (c =? sep)%N eqn:E.
    + apply N.eqb_eq in E. exfalso. apply (H c); [now left | exact E].
    + rewrite IH by (intros d Hd; apply H; now right).
      now rewrite <- app_assoc.
Qed.

(** Splitting a joined list at the separator gives the list back. *)
Lemma split_char_join (sep : jschar) (ls : list jsstring) :
  ls <> [] -> (forall l c, In l ls -> In c l -> c <> sep) ->
  split_char sep (join [sep] ls) = ls.
Proof.
  unfold split_char. induction ls as [|x ls IH]; intros Hne H; [congruence|].
  destruct ls as [|y ls].
  - cbn [join]. rewrite split_on_no_sep; [reflexivity|].
    intros c Hc. apply (H x c); [now left | exact Hc].
  - change (join [sep] (x :: y :: ls)) with (x ++ [sep] ++ join [sep] (y :: ls)).
    rewrite split_on_app_no_sep by (intros c Hc; apply (H x c); [now left | exact Hc]).
    cbn [app split_on]. rewrite N.eqb_refl. f_equal.
    apply IH; [discriminate|]. intros l c Hl Hc. apply (H l c); [now right | exact Hc].
Qed.

Lemma labelled_fields_values (data : ParsedData) (field : jsstring * option jsstring) :
  In field (labelled_fields data) -> exists f, snd field = get_field f data.
Proof.
  unfold labelled_fields. cbn [In].
  intros [<-|[<-|[<-|[<-|[<-|[<-|[<-|[<-|[]]]]]]]]]; cbn [snd].
  - now exists FStudentName.
  - now exists FStudentRoll.
  - now exists FCertificateNumber.
  - now exists FInstitutionName.
  - now exists FCourseName.
  - now exists FMarks.
  - now exists FDateIssued.
  - now exists FUin.
Qed.

Lemma labelled_fields_labels (data : ParsedData) (field : jsstring * option jsstring) :
  In field (labelled_fields data) ->
  nonblank (fst field) = true /\ forall c, In c (fst field ++ js ": ") -> c <> chr "010".
Proof.
  unfold labelled_fields. cbn [In].
  intros [<-|[<-|[<-|[<-|[<-|[<-|[<-|[<-|[]]]]]]]]]; cbn [fst]; (split; [reflexivity|]);
    intros c Hc E; subst c; vm_compute in Hc; intuition discriminate.
Qed.

(** X4: formatExtractedData gives the empty string exactly when no field
    holds a non-empty value. *)
Theorem formatExtractedData_empty (data : ParsedData) :
  nonblank (formatExtractedData data)
  = existsb (fun field => truthy (snd field)) (labelled_fields data).
Proof.
  unfold formatExtractedData, formatted_fields.
  destruct (existsb (fun field => truthy (snd field)) (labelled_fields data)) eqn:E.
  - apply existsb_exists in E. destruct E as (field & Hin & Ht).
    assert (Hf : In field (filter (fun field => truthy (snd field)) (labelled_fields data)))
      by (apply filter_In; now split).
    destruct (filter (fun field => truthy (snd field)) (labelled_fields data))
      as [|g gs] eqn:F; [destruct Hf|].
    cbn [map]. apply nonblank_join_cons.
    assert (Hg : In g (labelled_fields data)).
    { apply (proj1 (filter_In (fun field => truthy (snd field)) g (labelled_fields data))).
      rewrite F. now left. }
    apply labelled_fields_labels in Hg. destruct Hg as [Hg _].
    destruct g as [lbl v]. cbn [fst snd] in *.
    destruct lbl; [discriminate Hg | reflexivity].
  - assert (F : filter (fun field => truthy (snd field)) (labelled_fields data) = []).
    { destruct (filter (fun field => truthy (snd field)) (labelled_fields data))
        as [|g gs] eqn:F; [reflexivity|].
      assert (Hg : In g (filter (fun field => truthy (snd field)) (labelled_fields data)))
        by (rewrite F; now left).
      apply filter_In in Hg. destruct Hg as [Hg Ht].
      assert (X : existsb (fun field => truthy (snd field)) (labelled_fields data) = true)
        by (apply existsb_exists; now exists g).
      congruence. }
    rewrite F. reflexivity.
Qed.

(** X5: when no value holds a line break, the lines of the formatted text
    are the "Label: value" lines of the fields with a non-empty value, in
    the fixed order of the labels, one line per such field (and the single
    empty line of the empty text when there is none). *)
Theorem formatExtractedData_lines (data : ParsedData) :
  (forall f v, get_field f data = Some v -> ~ In (chr "010") v) ->
  split_char (chr "010") (formatExtractedData data) =
    match formatted_fields data with
    | [] => [[]]
    | line :: more => line :: more
    end /\
  length (formatted_fields data)
  = length (filter (fun field => truthy (snd field)) (labelled_fields data)).
Proof.
  intros H. split; [|unfold formatted_fields; apply length_map].
  unfold formatExtractedData.
  destruct (formatted_fields data) as [|line more] eqn:F; [reflexivity|].
  rewrite <- F. unfold newline. apply split_char_join; [rewrite F; discriminate|].
  intros l c Hl Hc E. subst c. unfold formatted_fields in Hl.
  apply in_map_iff in Hl. destruct Hl as (field & <- & Hin).
  apply filter_In in Hin. destruct Hin as [Hin Ht].
  rewrite app_assoc in Hc. apply in_app_or in Hc. destruct Hc as [Hc|Hc].
  - apply labelled_fields_labels in Hin. destruct Hin as [_ Hl].
    now apply (Hl _ Hc).
  - apply labelled_fields_values in Hin. destruct Hin as (f & Hf).
    destruct field as [lbl [v|]]; cbn [fst snd template_value] in *; [|discriminate Ht].
    symmetry in Hf. now apply (H f v Hf).
Qed.

Lemma formatExtractedData_lines_witness :
  split_char (chr "010")
    (formatExtractedData
       {| studentName := Some (js "A"); studentRoll := None; certificateNumber := None;
          institutionName := None; courseName := None; marks := None;
          dateIssued := None; uin := None |})
  = [js "Student Name: A"].
Proof.
  refine (proj1 (formatExtractedData_lines
                   {| studentName := Some (js "A"); studentRoll := None;
                      certificateNumber := None; institutionName := None;
                      courseName := None; marks := None; dateIssued := None;
                      uin := None |} _)).
  intros f v Hf Hin. destruct f; cbn [get_field studentName studentRoll certificateNumber
    institutionName courseName marks dateIssued uin] in Hf; try discriminate.
  injection Hf as <-. vm_compute in Hin. destruct Hin as [E|[]]. discriminate E.
Defined.

(* ================================================================== *)
(** ** Further properties: the cleaned text as a list of words *)

Lemma space_like_blank (c : jschar) :
  is_space (if allow_listed c then c else chr " ") = space_like c.
Proof.
  unfold space_like. destruct (allow_listed c); cbn [negb].
  - now rewrite orb_false_r.
  - now rewrite orb_true_r.
Qed.

Lemma is_space_space_like (c : jschar) : is_space c = true -> space_like c = true.
Proof. unfold space_like. now intros ->. Qed.

Lemma not_space_like (c : jschar) :
  space_like c = false -> is_space c = false /\ allow_listed c = true.
Proof.
  unfold space_like. intros H. apply orb_false_elim in H. destruct H as [H1 H2].
  split; [exact H1|]. now apply negb_false_iff in H2.
Qed.

Lemma drop_while_all (p : jschar -> bool) (l s : jsstring) :
  Forall (fun c => p c = true) l -> drop_while p (l ++ s) = drop_while p s.
Proof.
  induction 1 as [|c l Hc _ IH]; cbn [app drop_while]; [reflexivity|]. now rewrite Hc.
Qed.

(** A text between two runs of whitespace that neither starts nor ends
    with whitespace is what [trim] returns. *)
Lemma trim_between (l t r : jsstring) :
  Forall (fun c => is_space c = true) l -> Forall (fun c => is_space c = true) r ->
  trimmed t -> trim (l ++ t ++ r) = t.
Proof.
  intros Hl Hr [H1 H2]. unfold trim. rewrite drop_while_all by exact Hl.
  destruct t as [|a t].
  - cbn [app]. rewrite <- (app_nil_r r), drop_while_all by exact Hr. reflexivity.
  - assert (Ha : is_space a = false).
    { destruct (is_space a) eqn:E; [|reflexivity]. exfalso.
      cbn [drop_while] in H1. rewrite E in H1.
      destruct (drop_while_split is_space t) as (u & Hu & _).
      rewrite H1 in Hu. apply (f_equal (@length _)) in Hu.
      rewrite length_app in Hu. simpl in Hu. lia. }
    cbn [app drop_while]. rewrite Ha.
    change (a :: t ++ r) with ((a :: t) ++ r).
    rewrite rev_app_distr, drop_while_all by (now apply Forall_rev).
    rewrite H2. apply rev_involutive.
Qed.

Lemma words_of_shape (s : jsstring) :
  Forall (fun w => w <> [] /\ Forall (fun c => space_like c = false) w) (words_of s).
Proof.
  induction s as [|c s IH]; cbn [words_of]; [constructor|].
  destruct (space_like c) eqn:E; [exact IH|].
  destruct (starts_with_separator s).
  - constructor; [|exact IH]. split; [discriminate | now repeat constructor].
  - destruct (words_of s) as [|w ws]; constructor.
    + split; [discriminate | now repeat constructor].
    + constructor.
    + apply Forall_inv in IH. destruct IH as [_ IH].
      split; [discriminate | now constructor].
    + now apply Forall_inv_tail in IH.
Qed.

Lemma words_of_nonempty (c : jschar) (s : jsstring) :
  space_like c = false -> words_of (c :: s) <> [].
Proof.
  intros E. cbn [words_of]. rewrite E.
  destruct (starts_with_separator s); [discriminate|].
  destruct (words_of s); discriminate.
Qed.

Lemma join_words_last (ws : list jsstring) :
  ws <> [] ->
  Forall (fun w => w <> [] /\ Forall (fun c => space_like c = false) w) ws ->
  exists z m, rev (join [chr " "] ws) = z :: m /\ is_space z = false.
Proof.
  induction ws as [|w ws IH]; intros Hne H; [congruence|].
  pose proof (Forall_inv H) as [Hw1 Hw2]. apply Forall_inv_tail in H.
  destruct ws as [|w2 ws].
  - cbn [join]. destruct (rev w) as [|z m] eqn:R.
    + exfalso. apply Hw1. apply (f_equal (@rev _)) in R.
      now rewrite rev_involutive in R.
    + exists z, m. split; [reflexivity|].
      assert (Hz : In z w) by (apply in_rev; rewrite R; now left).
      rewrite Forall_forall in Hw2. now apply not_space_like, Hw2.
  - change (join [chr " "] (w :: w2 :: ws))
      with (w ++ [chr " "] ++ join [chr " "] (w2 :: ws)).
    destruct (IH ltac:(discriminate) H) as (z & m & R & Hz).
    rewrite !rev_app_distr, R. exists z. eexists. split; [reflexivity | exact Hz].
Qed.

(** Words joined by single spaces neither start nor end with whitespace. *)
Lemma join_words_trimmed (ws : list jsstring) :
  Forall (fun w => w <> [] /\ Forall (fun c => space_like c = false) w) ws ->
  trimmed (join [chr " "] ws).
Proof.
  intros H. destruct ws as [|w ws]; [now split|]. split.
  - pose proof (Forall_inv H) as [Hne Hw].
    destruct w as [|a w]; [congruence|]. apply Forall_inv in Hw.
    apply not_space_like in Hw. destruct Hw as [Hw _].
    destruct ws; cbn [join app drop_while]; now rewrite Hw.
  - destruct (join_words_last (ws := w :: ws) ltac:(discriminate) H) as (z & m & R & Hz).
    rewrite R. cbn [drop_while]. now rewrite Hz.
Qed.

(** After the two replacements the text is its words joined by single
    spaces, with at most a space before and whitespace after. *)
Lemma collapse_words (s : jsstring) : forall b,
  exists r,
    collapse_ws b (blank_unless allow_listed s) =
      (if starts_with_separator s && negb b then [chr " "] else [])
      ++ join [chr " "] (words_of s) ++ r /\
    Forall (fun c => is_space c = true) r.
Proof.
  induction s as [|c s IH]; intros b.
  - exists []. split; [reflexivity | constructor].
  - cbn [blank_unless map collapse_ws starts_with_separator words_of].
    rewrite space_like_blank. destruct (space_like c) eqn:E.
    + destruct (IH true) as (r & Hr & Hsp). unfold blank_unless in Hr.
      rewrite Hr, andb_false_r. cbn [app].
      exists r. split; [|exact Hsp]. now destruct b.
    + cbn [andb app]. destruct (not_space_like c E) as [_ Ha]. rewrite Ha.
      destruct (IH false) as (r & Hr & Hsp). unfold blank_unless in Hr. rewrite Hr.
      destruct (starts_with_separator s) eqn:S; cbn [andb negb app].
      * destruct (words_of s) as [|w ws] eqn:W.
        -- exists (chr " " :: r). split; [reflexivity|]. now constructor.
        -- exists r. split; [|exact Hsp]. reflexivity.
      * destruct (words_of s) as [|w ws] eqn:W.
        -- exists r. split; [reflexivity | exact Hsp].
        -- exists r. split; [|exact Hsp]. now destruct ws.
Qed.

Lemma cleanedText_join_words (text : jsstring) :
  cleanedText text = join [chr " "] (words_of text).
Proof.
  rewrite cleanedText_normalize. unfold normalize_text.
  destruct (collapse_words text false) as (r & Hr & Hsp). rewrite Hr.
  apply trim_between; [|exact Hsp|].
  - destruct (starts_with_separator text && negb false); now repeat constructor.
  - apply join_words_trimmed, words_of_shape.
Qed.

Lemma parse_by_cleanedText (x y : jsstring) :
  cleanedText x = cleanedText y -> parseCertificateText x = parseCertificateText y.
Proof. intros H. unfold parseCertificateText. now rewrite H. Qed.

(** X6: the cleaned text is the sequence of words of the raw text (the
    maximal runs of characters that are neither whitespace nor off the
    allow-list) joined by single spaces; each word is non-empty and holds
    allow-listed characters that are no whitespace. *)
Theorem cleanedText_words (text : jsstring) :
  cleanedText text = join (js " ") (words_of text) /\
  Forall (fun w => nonblank w = true /\
                   Forall (fun c => allow_listed c = true /\ is_space c = false) w)
         (words_of text).
Proof.
  split; [apply cleanedText_join_words|].
  eapply Forall_impl; [|apply words_of_shape].
  intros w [Hne Hw]. split; [now destruct w|].
  eapply Forall_impl; [|exact Hw]. intros c Hc.
  apply not_space_like in Hc. tauto.
Qed.

Lemma words_of_separators (s : jsstring) :
  forallb space_like s = true -> words_of s = [].
Proof.
  induction s as [|c s IH]; cbn [forallb words_of]; [reflexivity|].
  intros H. apply andb_prop in H. destruct H as [H1 H2]. rewrite H1. now apply IH.
Qed.

Lemma words_of_none (s : jsstring) :
  words_of s = [] -> forallb space_like s = true.
Proof.
  induction s as [|c s IH]; [reflexivity|]. intros H.
  destruct (space_like c) eqn:E.
  - cbn [forallb]. rewrite E. cbn [words_of] in H. rewrite E in H. now apply IH.
  - now destruct (@words_of_nonempty c s E).
Qed.

Lemma words_of_leading (pre x : jsstring) :
  forallb space_like pre = true -> words_of (pre ++ x) = words_of x.
Proof.
  induction pre as [|c pre IH]; cbn [forallb app words_of]; [reflexivity|].
  intros H. apply andb_prop in H. destruct H as [H1 H2]. rewrite H1. now apply IH.
Qed.

Lemma words_of_trailing (x post : jsstring) :
  forallb space_like post = true -> words_of (x ++ post) = words_of x.
Proof.
  intros H. induction x as [|e x IH]; cbn [app].
  - now apply words_of_separators.
  - cbn [words_of]. rewrite IH. destruct (space_like e); [reflexivity|].
    destruct x as [|d x]; [|reflexivity].
    cbn [app starts_with_separator words_of].
    destruct post as [|p post]; [reflexivity|].
    cbn [forallb] in H. apply andb_prop in H. destruct H as [H1 _].
    cbn [starts_with_separator]. now rewrite H1.
Qed.

Lemma words_of_repeated (a b : jsstring) (c d : jschar) :
  space_like c = true -> space_like d = true ->
  words_of (a ++ c :: d :: b) = words_of (a ++ c :: b).
Proof.
  intros Hc Hd. induction a as [|e a IH]; cbn [app words_of].
  - now rewrite Hc, Hd.
  - rewrite IH. now destruct a.
Qed.

Lemma words_of_interchange (x y : jsstring) :
  Forall2 same_or_separators x y -> words_of x = words_of y.
Proof.
  assert (Hs : forall c d, same_or_separators c d -> space_like c = space_like d).
  { intros c d [->|[H1 H2]]; congruence. }
  induction 1 as [|c d x y Hcd Hxy IH]; [reflexivity|].
  cbn [words_of]. rewrite IH, (Hs c d Hcd).
  assert (Hst : starts_with_separator x = starts_with_separator y).
  { destruct Hxy as [|c' d' x' y' H' _]; [reflexivity|]. now apply Hs. }
  rewrite Hst. destruct (space_like d) eqn:E; [reflexivity|].
  destruct Hcd as [->|[H1 H2]]; [reflexivity|]. congruence.
Qed.

Lemma parse_by_words (x y : jsstring) :
  words_of x = words_of y -> parseCertificateText x = parseCertificateText y.
Proof.
  intros H. apply parse_by_cleanedText. now rewrite !cleanedText_join_words, H.
Qed.

(** X7: parseCertificateText reads a text through its words only: two
    texts with the same words give the same record.  So do, in
    particular, texts that differ in which separator (a line break, a
    space, a character off the allow-list) stands at a position, in
    separators before or after the text, or in the length of a run of
    separators. *)
Theorem separators_do_not_matter (x y pre post a b : jsstring) (c d : jschar) :
  (words_of x = words_of y -> parseCertificateText x = parseCertificateText y) /\
  (Forall2 same_or_separators x y -> parseCertificateText x = parseCertificateText y) /\
  (forallb space_like pre = true -> forallb space_like post = true ->
   parseCertificateText (pre ++ x ++ post) = parseCertificateText x) /\
  (space_like c = true -> space_like d = true ->
   parseCertificateText (a ++ c :: d :: b) = parseCertificateText (a ++ c :: b)).
Proof.
  split; [apply parse_by_words|]. split; [|split].
  - intros H. now apply parse_by_words, words_of_interchange.
  - intros H1 H2. apply parse_by_words.
    now rewrite words_of_leading, words_of_trailing.
  - intros H1 H2. now apply parse_by_words, words_of_repeated.
Qed.

Lemma separators_do_not_matter_witness :
  parseCertificateText (js "A#B") = parseCertificateText (js "A B") /\
  parseCertificateText (js "A" ++ newline ++ js "B") = parseCertificateText (js "A B") /\
  parseCertificateText (js " ~" ++ js "A B" ++ js "| ") = parseCertificateText (js "A B") /\
  parseCertificateText (js "A" ++ chr " " :: chr "*" :: js "B")
  = parseCertificateText (js "A" ++ chr " " :: js "B").
Proof.
  pose proof (separators_do_not_matter (js "A#B") (js "A B") [] [] [] [] 0%N 0%N)
    as (W & _).
  pose proof (separators_do_not_matter (js "A" ++ newline ++ js "B") (js "A B")
                [] [] [] [] 0%N 0%N) as (_ & I & _).
  pose proof (separators_do_not_matter (js "A B") [] (js " ~") (js "| ") [] [] 0%N 0%N)
    as (_ & _ & P & _).
  pose proof (separators_do_not_matter [] [] [] [] (js "A") (js "B") (chr " ") (chr "*"))
    as (_ & _ & _ & R).
  split; [apply W; vm_compute; reflexivity|].
  split; [apply I; repeat constructor; right; split; vm_compute; reflexivity|].
  split; [apply P; vm_compute; reflexivity|].
  apply R; vm_compute; reflexivity.
Defined.

(** X8: a text without any word (empty, or made of whitespace and
    characters off the allow-list only) is the only kind of text with an
    empty cleaned text; parseCertificateText returns the record without
    any field for it, which fails validation with the three messages and
    formats to the empty string. *)
Theorem blank_text_gives_empty_record (text : jsstring) :
  nonblank (cleanedText text) = negb (forallb space_like text) /\
  (forallb space_like text = true ->
   parseCertificateText text = empty_data /\
   validateExtractedData (parseCertificateText text) =
     {| isValid := false;
        errors := [js "Student name not found";
                   js "Roll number or certificate number not found";
                   js "Institution name not found"] |} /\
   formatExtractedData (parseCertificateText text) = []).
Proof.
  assert (E : forallb space_like text = true -> cleanedText text = []).
  { intros H. now rewrite cleanedText_join_words, words_of_separators. }
  split.
  - destruct (forallb space_like text) eqn:F; cbn [negb].
    + now rewrite E.
    + rewrite cleanedText_join_words.
      destruct (words_of text) as [|w ws] eqn:W.
      * apply words_of_none in W. congruence.
      * pose proof (words_of_shape text) as S. rewrite W in S.
        apply Forall_inv in S. destruct S as [Hne _].
        destruct w; [congruence|]. now destruct ws.
  - intros H.
    assert (P : parseCertificateText text = empty_data).
    { unfold parseCertificateText. rewrite (E H). vm_compute. reflexivity. }
    rewrite P. repeat split.
Qed.

Lemma blank_text_gives_empty_record_witness :
  parseCertificateText (js "  ## |" ++ newline ++ js "@ ") = empty_data.
Proof.
  apply (proj2 (blank_text_gives_empty_record (js "  ## |" ++ newline ++ js "@ "))).
  vm_compute. reflexivity.
Defined.

(** X9: parsing the cleaned text of a text gives the record of the text
    itself, and so does parsing its words joined by single spaces. *)
Theorem parse_of_cleanedText (x : jsstring) :
  parseCertificateText (cleanedText x) = parseCertificateText x /\
  parseCertificateText (join (js " ") (words_of x)) = parseCertificateText x.
Proof.
  assert (A : parseCertificateText (cleanedText x) = parseCertificateText x).
  { apply parse_by_cleanedText. rewrite !cleanedText_normalize.
    apply normalize_text_idem. reflexivity. }
  split; [exact A|]. now rewrite <- cleanedText_join_words.
Qed.

(* ================================================================== *)
(** ** Further properties: which statement sets which field *)

Lemma get_set_other (f g : Field) (v : option jsstring) (e : ParsedData) :
  field_eqb g f = false -> get_field f (set_field g v e) = get_field f e.
Proof. intros H. now rewrite get_set, H. Qed.

Lemma rollFallback_other (cleaned : jsstring) (e : ParsedData) (f : Field) :
  field_eqb FStudentRoll f = false ->
  get_field f (rollFallback cleaned e) = get_field f e.
Proof.
  intros H. unfold rollFallback.
  destruct (negb (truthy (studentRoll e)) && negb (truthy (certificateNumber e)));
    [|reflexivity].
  destruct (str_match cleaned _); [|reflexivity]. now apply get_set_other.
Qed.

Lemma institutionFallback_other (cleaned : jsstring) (e : ParsedData) (f : Field) :
  field_eqb FInstitutionName f = false ->
  get_field f (institutionFallback cleaned e) = get_field f e.
Proof.
  intros H. unfold institutionFallback.
  destruct (negb (truthy (institutionName e))); [|reflexivity].
  destruct (str_match cleaned institution_phrase) as [ma|]; [|reflexivity].
  destruct (group 1 ma); [|reflexivity]. now apply get_set_other.
Qed.

Lemma receiptNameFallback_other (cleaned : jsstring) (e : ParsedData) (f : Field) :
  field_eqb FStudentName f = false ->
  get_field f (receiptNameFallback cleaned e) = get_field f e.
Proof.
  intros H. unfold receiptNameFallback.
  destruct (negb (truthy (studentName e))); [|reflexivity].
  destruct (str_match cleaned receipt_name) as [ma|]; [|reflexivity].
  destruct (group 1 ma); [|reflexivity]. now apply get_set_other.
Qed.

Lemma receiptDateFallback_other (cleaned : jsstring) (e : ParsedData) (f : Field) :
  field_eqb FDateIssued f = false ->
  get_field f (receiptDateFallback cleaned e) = get_field f e.
Proof.
  intros H. unfold receiptDateFallback.
  destruct (negb (truthy (dateIssued e))); [|reflexivity].
  destruct (str_match cleaned month_day_comma_year) as [ma|]; [|reflexivity].
  destruct (findIndex _ monthNames); [|reflexivity].
  destruct (group 1 ma); [|reflexivity].
  destruct (group 2 ma); [|reflexivity]. now apply get_set_other.
Qed.

Lemma formField_other (text : jsstring) (e : ParsedData) (entry : Field * list RegExp)
      (f : Field) :
  field_eqb (fst entry) f = false ->
  get_field f (formField text e entry) = get_field f e.
Proof.
  intros H. unfold formField.
  destruct (negb (truthy (get_field (fst entry) e))); [|reflexivity].
  destruct (form_patterns (fst entry) text (snd entry)); [|reflexivity].
  now apply get_set_other.
Qed.

Lemma form_entries_other (text : jsstring) (f : Field) (entries : list (Field * list RegExp)) :
  forallb (fun entry => negb (field_eqb (fst entry) f)) entries = true ->
  forall e, get_field f (fold_left (formField text) entries e) = get_field f e.
Proof.
  induction entries as [|entry entries IH]; intros H e; [reflexivity|].
  cbn [forallb] in H. apply andb_prop in H. destruct H as [H1 H2].
  cbn [fold_left]. rewrite (IH H2). apply formField_other.
  now apply negb_true_iff.
Qed.

Lemma fallbacks_leave_field (text : jsstring) (f : Field) :
  existsb (field_eqb f)
    [FStudentRoll; FStudentName; FInstitutionName; FDateIssued; FCertificateNumber] = false ->
  get_field f (parseCertificateText text)
  = get_field f (primaryExtract (lines_of (cleanedText text))).
Proof.
  intros Hf.
  assert (F : forallb (fun entry => negb (field_eqb (fst entry) f)) formPatterns = true).
  { unfold formPatterns. cbn [forallb fst].
    destruct f; (discriminate Hf || reflexivity). }
  assert (H1 : field_eqb FStudentRoll f = false) by (destruct f; (discriminate Hf || reflexivity)).
  assert (H2 : field_eqb FInstitutionName f = false)
    by (destruct f; (discriminate Hf || reflexivity)).
  assert (H3 : field_eqb FStudentName f = false) by (destruct f; (discriminate Hf || reflexivity)).
  assert (H4 : field_eqb FDateIssued f = false) by (destruct f; (discriminate Hf || reflexivity)).
  unfold parseCertificateText.
  rewrite receiptDateFallback_other, receiptNameFallback_other by assumption.
  unfold extractFromFormFields. rewrite form_entries_other by assumption.
  now rewrite institutionFallback_other, rollFallback_other by assumption.
Qed.

(** X10: the fallback statements assign to studentRoll, studentName,
    institutionName, dateIssued and certificateNumber only: courseName,
    marks and uin of the returned record are those of the primary
    extractor. *)
Theorem fallbacks_leave_course_marks_uin (text : jsstring) :
  let primary := primaryExtract (lines_of (cleanedText text)) in
  get_field FCourseName (parseCertificateText text) = get_field FCourseName primary /\
  get_field FMarks (parseCertificateText text) = get_field FMarks primary /\
  get_field FUin (parseCertificateText text) = get_field FUin primary.
Proof.
  cbv zeta. split; [|split]; now apply fallbacks_leave_field.
Qed.

Lemma formatDate_nonempty (day : jsstring) (monthIndex : nat) (year : jsstring) :
  formatDate day monthIndex year <> [].
Proof.
  unfold formatDate. intros E. apply app_eq_nil in E. destruct E as [_ E].
  discriminate E.
Qed.

Lemma final_no_empty_but_name (text : jsstring) (f : Field) (v : jsstring) :
  field_eqb FStudentName f = false ->
  get_field f (parseCertificateText text) = Some v -> v <> [].
Proof.
  intros Hf. unfold parseCertificateText.
  pose proof (primaryExtract_no_empty (lines_of (cleanedText text))) as H0.
  destruct (rollFallback_step (cleanedText text) H0) as [_ H1].
  destruct (institutionFallback_step (cleanedText text) H1) as [_ H2].
  destruct (extractFromFormFields_step (cleanedText text) H2) as [_ H3].
  set (e3 := extractFromFormFields _ _) in *.
  assert (H4 : forall u, get_field f (receiptNameFallback (cleanedText text) e3) = Some u ->
                         u <> []).
  { intros u. rewrite receiptNameFallback_other by exact Hf. apply H3. }
  set (e4 := receiptNameFallback _ e3) in *.
  unfold receiptDateFallback.
  destruct (negb (truthy (dateIssued e4))); [|apply H4].
  destruct (str_match (cleanedText text) month_day_comma_year) as [ma|]; [|apply H4].
  destruct (findIndex _ monthNames) as [monthIndex|]; [|apply H4].
  destruct (group 1 ma) as [day|]; [|apply H4].
  destruct (group 2 ma) as [year|]; [|apply H4].
  rewrite get_set. destruct (field_eqb FDateIssued f); [|apply H4].
  intros E. injection E as <-. apply formatDate_nonempty.
Qed.

(** X11: in the returned record every field other than studentName is
    absent or a non-empty string; studentName can be the empty string,
    which the receipt-name fallback stores when every word it captured
    is dropped as an institution word, as for "Mr. COLLEGEJOSHI". *)
Theorem present_fields_are_nonempty (text : jsstring) (f : Field) (v : jsstring) :
  (f <> FStudentName -> get_field f (parseCertificateText text) = Some v -> v <> []) /\
  studentName (parseCertificateText (js "Mr. COLLEGEJOSHI")) = Some [].
Proof.
  split; [|vm_compute; reflexivity].
  intros Hf. apply final_no_empty_but_name.
  destruct f; try reflexivity. congruence.
Qed.

Lemma present_fields_are_nonempty_witness : js "123456" <> [].
Proof.
  refine (proj1 (present_fields_are_nonempty receipt_text FCertificateNumber (js "123456"))
                _ _).
  - discriminate.
  - vm_compute. reflexivity.
Defined.

(* ================================================================== *)
(** ** Further properties: no institution word in a student name *)

Lemma starts_with_app (p s r : jsstring) :
  starts_with p s = true -> starts_with p (s ++ r) = true.
Proof.
  revert s. induction p as [|x p IH]; intros [|y s]; cbn [starts_with app];
    try reflexivity; try discriminate.
  intros H. apply andb_prop in H. destruct H as [H1 H2]. now rewrite H1, IH.
Qed.

Lemma includes_app_r (s r p : jsstring) :
  includes s p = true -> includes (s ++ r) p = true.
Proof.
  induction s as [|c s IH]; cbn [includes app].
  - rewrite orb_false_r. intros H. destruct p; [|discriminate H]. now destruct r.
  - intros H. apply orb_prop in H. destruct H as [H|H].
    + change (c :: s ++ r) with ((c :: s) ++ r). now rewrite starts_with_app.
    + rewrite (IH H). apply orb_true_r.
Qed.

Lemma includes_app_l (l s p : jsstring) :
  includes s p = true -> includes (l ++ s) p = true.
Proof.
  intros H. induction l as [|c l IH]; [exact H|].
  cbn [app includes]. rewrite IH. apply orb_true_r.
Qed.

Lemma starts_with_before_sep (sep : jschar) (p u v : jsstring) :
  ~ In sep p -> starts_with p (u ++ sep :: v) = starts_with p u.
Proof.
  revert p. induction u as [|y u IH]; intros [|x p] H; cbn [app starts_with];
    try reflexivity.
  - destruct (x =? sep)%N eqn:E; [|reflexivity].
    apply N.eqb_eq in E. exfalso. apply H. now left.
  - rewrite IH; [reflexivity|]. intros Hin. apply H. now right.
Qed.

Lemma includes_around_sep (sep : jschar) (p u v : jsstring) :
  p <> [] -> ~ In sep p ->
  includes (u ++ sep :: v) p = includes u p || includes v p.
Proof.
  intros Hne H. induction u as [|y u IH].
  - cbn [app]. change (includes (sep :: v) p)
      with (starts_with p (sep :: v) || includes v p).
    pose proof (@starts_with_before_sep sep p [] v H) as S. cbn [app] in S. rewrite S.
    destruct p; [congruence | reflexivity].
  - change (includes ((y :: u) ++ sep :: v) p)
      with (starts_with p ((y :: u) ++ sep :: v) || includes (u ++ sep :: v) p).
    rewrite starts_with_before_sep by exact H. rewrite IH.
    change (includes (y :: u) p) with (starts_with p (y :: u) || includes u p).
    now rewrite orb_assoc.
Qed.

(** A text without the separator lies in a joined list only inside one
    of its elements. *)
Lemma includes_join (sep : jschar) (p : jsstring) (ws : list jsstring) :
  p <> [] -> ~ In sep p ->
  includes (join [sep] ws) p = existsb (fun w => includes w p) ws.
Proof.
  intros Hne H. induction ws as [|w ws IH].
  - destruct p; [congruence | reflexivity].
  - destruct ws as [|w2 ws].
    + cbn [join existsb]. now rewrite orb_false_r.
    + change (join [sep] (w :: w2 :: ws)) with (w ++ sep :: join [sep] (w2 :: ws)).
      rewrite includes_around_sep by assumption. now rewrite IH.
Qed.

Lemma toLowerCase_join (sep : jsstring) (ws : list jsstring) :
  toLowerCase (join sep ws) = join (toLowerCase sep) (map toLowerCase ws).
Proof.
  unfold toLowerCase. induction ws as [|w ws IH]; [reflexivity|].
  destruct ws as [|w2 ws]; [reflexivity|].
  change (join sep (w :: w2 :: ws)) with (w ++ sep ++ join sep (w2 :: ws)).
  rewrite !map_app, IH. reflexivity.
Qed.

Lemma institutionWords_shape (inst : jsstring) :
  In inst institutionWords ->
  toLowerCase inst <> [] /\ ~ In (chr " ") (toLowerCase inst).
Proof.
  unfold institutionWords. cbn [map In].
  intros H. repeat (destruct H as [<-|H]; [split; [discriminate|];
    vm_compute; intuition discriminate|]). destruct H.
Qed.

(** What is left after the institution-word filter holds none of the
    words, in any letter case. *)
Lemma dropInstitutionWords_free (value : jsstring) :
  free_of_institution_words (dropInstitutionWords value) = true.
Proof.
  unfold free_of_institution_words. apply forallb_forall. intros inst Hin.
  apply negb_true_iff.
  destruct (includes (toLowerCase (dropInstitutionWords value)) (toLowerCase inst)) eqn:E;
    [|reflexivity].
  exfalso. unfold dropInstitutionWords in E.
  set (kept := filter _ (split_char (chr " ") value)) in E.
  destruct (@institutionWords_shape inst Hin) as [Hne Hsp].
  destruct (trim_segment (join (js " ") kept)) as (l & r & J).
  assert (I : includes (toLowerCase (join (js " ") kept)) (toLowerCase inst) = true).
  { rewrite J. unfold toLowerCase at 1. rewrite !map_app.
    apply includes_app_l, includes_app_r. exact E. }
  rewrite toLowerCase_join in I.
  change (toLowerCase (js " ")) with [chr " "] in I.
  rewrite includes_join in I by assumption.
  apply existsb_exists in I. destruct I as (w' & Hw' & Iw).
  apply in_map_iff in Hw'. destruct Hw' as (w & <- & Hw).
  subst kept. apply filter_In in Hw. destruct Hw as [_ Hgood].
  apply negb_true_iff in Hgood.
  assert (X : existsb (fun inst => includes (toLowerCase w) (toLowerCase inst))
                      institutionWords = true)
    by (apply existsb_exists; now exists inst).
  congruence.
Qed.

Lemma try_lines_name_free (ls : list jsstring) (ps : list RegExp) (v : jsstring) :
  try_lines FStudentName ls ps = Some v -> free_of_institution_words v = true.
Proof.
  induction ls as [|l ls IH]; cbn [try_lines]; [discriminate|].
  destruct (try_patterns FStudentName l ps) as [value|] eqn:E; [|exact IH].
  intros H. injection H as <-. clear IH. revert E.
  induction ps as [|p ps IHp]; cbn [try_patterns]; [discriminate|].
  destruct (usable_group (str_match l p)) as [g|]; [|exact IHp].
  destruct (0 <? length (cleanValue FStudentName g)); [|exact IHp].
  intros H. injection H as <-. cbn [cleanValue]. apply dropInstitutionWords_free.
Qed.

Lemma form_patterns_name_free (text : jsstring) (ps : list RegExp) (v : jsstring) :
  form_patterns FStudentName text ps = Some v -> free_of_institution_words v = true.
Proof.
  induction ps as [|p ps IH]; cbn [form_patterns]; [discriminate|].
  destruct (usable_group (str_match text p)) as [g|]; [|exact IH].
  destruct (test valid_surname (dropInstitutionWords g)
            && (5 <? length (dropInstitutionWords g))); [|exact IH].
  intros H. injection H as <-. apply dropInstitutionWords_free.
Qed.

Lemma parse_name_free (text : jsstring) : name_is_free (parseCertificateText text).
Proof.
  unfold parseCertificateText.
  assert (H0 : name_is_free (primaryExtract (lines_of (cleanedText text)))).
  { unfold primaryExtract.
    assert (H : name_is_free empty_data) by (intros v; discriminate).
    revert H. generalize empty_data.
    induction patterns as [|entry ps IH]; intros e He; [exact He|].
    cbn [fold_left]. apply IH. unfold extractField.
    destruct (try_lines (fst entry) (lines_of (cleanedText text)) (snd entry))
      as [value|] eqn:E; [|exact He].
    intros v. rewrite get_set. destruct (field_eqb (fst entry) FStudentName) eqn:G;
      [|apply He].
    apply field_eqb_eq in G. rewrite G in E. intros H. injection H as <-.
    now apply try_lines_name_free in E. }
  set (e0 := primaryExtract _) in *.
  assert (H1 : name_is_free (rollFallback (cleanedText text) e0))
    by (intros v; rewrite rollFallback_other by reflexivity; apply H0).
  set (e1 := rollFallback _ e0) in *.
  assert (H2 : name_is_free (institutionFallback (cleanedText text) e1))
    by (intros v; rewrite institutionFallback_other by reflexivity; apply H1).
  set (e2 := institutionFallback _ e1) in *.
  assert (H3 : name_is_free (extractFromFormFields (cleanedText text) e2)).
  { unfold extractFromFormFields. revert H2. generalize e2.
    induction formPatterns as [|entry ps IH]; intros e He; [exact He|].
    cbn [fold_left]. apply IH. unfold formField.
    destruct (negb (truthy (get_field (fst entry) e))); [|exact He].
    destruct (form_patterns (fst entry) (cleanedText text) (snd entry))
      as [value|] eqn:E; [|exact He].
    intros v. rewrite get_set. destruct (field_eqb (fst entry) FStudentName) eqn:G;
      [|apply He].
    apply field_eqb_eq in G. rewrite G in E. intros H. injection H as <-.
    now apply form_patterns_name_free in E. }
  set (e3 := extractFromFormFields _ e2) in *.
  assert (H4 : name_is_free (receiptNameFallback (cleanedText text) e3)).
  { unfold receiptNameFallback.
    destruct (negb (truthy (studentName e3))); [|exact H3].
    destruct (str_match (cleanedText text) receipt_name) as [ma|]; [|exact H3].
    destruct (group 1 ma) as [g|]; [|exact H3].
    intros v. rewrite get_set. cbn [field_eqb]. intros H. injection H as <-.
    apply dropInstitutionWords_free. }
  intros v. rewrite receiptDateFallback_other by reflexivity. apply H4.
Qed.

(** X12: for every text, the studentName of the returned record, when
    there is one, contains none of the words institute, college,
    university, technology, school, academy, vidyalankar, engineering, in
    any letter case and not even as part of a longer word. *)
Theorem studentName_has_no_institution_word (text : jsstring) :
  match get_field FStudentName (parseCertificateText text) with
  | Some name =>
      forallb (fun inst => negb (includes (toLowerCase name) inst))
              (map js ["institute"; "college"; "university"; "technology"; "school";
                       "academy"; "vidyalankar"; "engineering"]%string) = true
  | None => True
  end.
Proof.
  pose proof (@parse_name_free text) as H. unfold name_is_free in H.
  destruct (get_field FStudentName (parseCertificateText text)) as [name|]; [|exact I].
  specialize (H name eq_refl). unfold free_of_institution_words in H.
  rewrite forallb_forall in H. apply forallb_forall. intros inst Hin.
  specialize (H inst Hin).
  assert (L : toLowerCase inst = inst).
  { cbn [map In] in Hin.
    repeat (destruct Hin as [<-|Hin]; [vm_compute; reflexivity|]). destruct Hin. }
  now rewrite L in H.
Qed.

(* ================================================================== *)
(** ** Further properties: what the clean-up of the primary extractor leaves *)

Lemma negated_class_matches (atoms : list ClassAtom) (c : jschar) :
  class_matches false true atoms c = negb (existsb (fun a => atom_has a c) atoms).
Proof.
  assert (E : existsb (fun a => atom_matches false a c) atoms
              = existsb (fun a => atom_has a c) atoms).
  { induction atoms as [|a atoms IH]; [reflexivity|].
    cbn [existsb]. rewrite IH. unfold atom_matches. cbn [andb]. now rewrite orb_false_r. }
  unfold class_matches. rewrite E.
  now destruct (existsb (fun a => atom_has a c) atoms).
Qed.

Lemma replace_go_negated_class (atoms : list ClassAtom) (s : jsstring) : forall i,
  replace_go (re (ncls atoms)) [] i 0 s
  = filter (fun c => existsb (fun a => atom_has a c) atoms) s.
Proof.
  induction s as [|c s IH]; intros i; cbn [replace_go filter];
    unfold match_at, re, ncls; cbn [source ignoreCase m rest]; [reflexivity|].
  rewrite negated_class_matches.
  destruct (existsb (fun a => atom_has a c) atoms); cbn [negb].
  - f_equal. apply IH.
  - unfold advance. cbn [endIndex app].
    rewrite (proj2 (Nat.eqb_neq (S i) i)) by lia.
    replace (S i - i - 1) with 0 by lia. apply IH.
Qed.

(** Replacing a negated class by nothing, globally, keeps the characters
    of the class. *)
Lemma replace_all_negated_class (atoms : list ClassAtom) (s : jsstring) :
  replace_all (re (ncls atoms)) [] s
  = filter (fun c => existsb (fun a => atom_has a c) atoms) s.
Proof. apply replace_go_negated_class. Qed.

Lemma forallb_filter (p : jschar -> bool) (s : jsstring) : forallb p (filter p s) = true.
Proof.
  induction s as [|c s IH]; [reflexivity|]. cbn [filter].
  destruct (p c) eqn:E; [|exact IH]. cbn [forallb]. now rewrite E.
Qed.

(** A value stored by the primary extractor is a cleaned-up capture. *)
Lemma try_lines_cleaned (field : Field) (ls : list jsstring) (ps : list RegExp) (v : jsstring) :
  try_lines field ls ps = Some v -> exists g, v = cleanValue field g.
Proof.
  induction ls as [|l ls IH]; cbn [try_lines]; [discriminate|].
  destruct (try_patterns field l ps) as [value|] eqn:E; [|exact IH].
  intros H. injection H as <-. clear IH. revert E.
  induction ps as [|p ps IHp]; cbn [try_patterns]; [discriminate|].
  destruct (usable_group (str_match l p)) as [g|]; [|exact IHp].
  destruct (0 <? length (cleanValue field g)); [|exact IHp].
  intros H. injection H as <-. now exists g.
Qed.

Lemma primaryExtract_cleaned (ls : list jsstring) (f : Field) (v : jsstring) :
  get_field f (primaryExtract ls) = Some v -> exists g, v = cleanValue f g.
Proof.
  unfold primaryExtract.
  assert (H : forall f v, get_field f empty_data = Some v -> exists g, v = cleanValue f g)
    by (intros f' v'; destruct f'; discriminate).
  revert f v. revert H. generalize empty_data.
  induction patterns as [|entry ps IH]; intros e He; [exact He|].
  cbn [fold_left]. apply IH. unfold extractField.
  destruct (try_lines (fst entry) ls (snd entry)) as [value|] eqn:E; [|exact He].
  intros f v. rewrite get_set. destruct (field_eqb (fst entry) f) eqn:G; [|apply He].
  apply field_eqb_eq in G. subst f. intros H. injection H as <-.
  now apply try_lines_cleaned in E.
Qed.

(** X13: marks of the returned record, when present, holds digits and
    dots only; studentRoll and certificateNumber as the primary extractor
    stores them hold capital letters, digits and hyphens only.  The
    form-field pass cleans nothing: "roll no: abcdef" gives studentRoll
    "abcdef". *)
Theorem cleaned_up_values (text : jsstring) :
  let primary := primaryExtract (lines_of (cleanedText text)) in
  match get_field FMarks (parseCertificateText text) with
  | Some v => forallb (fun c => is_digit c || (c =? chr ".")%N) v = true
  | None => True
  end /\
  match get_field FStudentRoll primary with
  | Some v => forallb (fun c => is_upper c || is_digit c || (c =? chr "-")%N) v = true
  | None => True
  end /\
  match get_field FCertificateNumber primary with
  | Some v => forallb (fun c => is_upper c || is_digit c || (c =? chr "-")%N) v = true
  | None => True
  end /\
  get_field FStudentRoll (parseCertificateText (js "roll no: abcdef")) = Some (js "abcdef").
Proof.
  cbv zeta.
  assert (A : forall c, existsb (fun a => atom_has a c) [A_Z; d0_9; c_ "-"]
                        = is_upper c || is_digit c || (c =? chr "-")%N).
  { intros c. cbn [existsb]. unfold A_Z, d0_9, c_, r_. cbn [atom_has].
    rewrite orb_false_r. now rewrite orb_assoc. }
  assert (B : forall c, existsb (fun a => atom_has a c) [CDigit; c_ "."]
                        = is_digit c || (c =? chr ".")%N).
  { intros c. cbn [existsb]. unfold c_. cbn [atom_has]. now rewrite orb_false_r. }
  split; [|split; [|split]].
  - rewrite (@fallbacks_leave_field text FMarks) by reflexivity.
    destruct (get_field FMarks (primaryExtract (lines_of (cleanedText text))))
      as [v|] eqn:E; [|exact I].
    apply primaryExtract_cleaned in E. destruct E as (g & ->).
    cbn [cleanValue]. rewrite replace_all_negated_class.
    rewrite (filter_ext _ _ B). apply forallb_filter.
  - destruct (get_field FStudentRoll (primaryExtract (lines_of (cleanedText text))))
      as [v|] eqn:E; [|exact I].
    apply primaryExtract_cleaned in E. destruct E as (g & ->).
    cbn [cleanValue]. rewrite replace_all_negated_class.
    rewrite (filter_ext _ _ A). apply forallb_filter.
  - destruct (get_field FCertificateNumber (primaryExtract (lines_of (cleanedText text))))
      as [v|] eqn:E; [|exact I].
    apply primaryExtract_cleaned in E. destruct E as (g & ->).
    cbn [cleanValue]. rewrite replace_all_negated_class.
    rewrite (filter_ext _ _ A). apply forallb_filter.
  - vm_compute. reflexivity.
Qed.

(* ================================================================== *)
(** ** Further properties: the callers of the OCR result *)

Lemma or_else_twice (a : option jsstring) (b : jsstring) :
  or_else a (or_else a b) = or_else a b.
Proof. now destruct a as [[|c s]|]. Qed.

Lemma nonblank_or_else (a : option jsstring) (b : jsstring) :
  nonblank (or_else a b) = truthy a || nonblank b.
Proof. now destruct a as [[|c s]|]. Qed.

(** X14: filling the form from an OCR record keeps the institute and the
    attached document, leaves a form field filled exactly when the record
    has a non-empty value for it or it was filled before (so a field the
    user typed is never blanked), takes the UIN from certificateNumber
    before uin, does not look at institutionName, and filling twice is
    filling once. *)
Theorem fillFormData_properties (data : ParsedData) (prev : FormData)
        (other : option jsstring) :
  let filled := fillFormData data prev in
  fillFormData data filled = filled /\
  form_instituteId filled = form_instituteId prev /\
  form_document filled = form_document prev /\
  nonblank (form_studentName filled)
    = truthy (studentName data) || nonblank (form_studentName prev) /\
  nonblank (form_studentRoll filled)
    = truthy (studentRoll data) || nonblank (form_studentRoll prev) /\
  nonblank (form_docType filled)
    = truthy (courseName data) || nonblank (form_docType prev) /\
  nonblank (form_marks filled) = truthy (marks data) || nonblank (form_marks prev) /\
  nonblank (form_dateIssued filled)
    = truthy (dateIssued data) || nonblank (form_dateIssued prev) /\
  nonblank (form_uin filled)
    = truthy (certificateNumber data) || truthy (uin data) || nonblank (form_uin prev) /\
  form_uin filled = or_else (certificateNumber data) (or_else (uin data) (form_uin prev)) /\
  fillFormData (set_field FInstitutionName other data) prev = filled.
Proof.
  cbv zeta. unfold fillFormData. cbn [form_studentName form_studentRoll form_docType
    form_marks form_uin form_dateIssued form_instituteId form_document].
  repeat split; try apply nonblank_or_else.
  - f_equal; try apply or_else_twice.
    now destruct (certificateNumber data) as [[|c s]|], (uin data) as [[|d t]|].
  - rewrite !nonblank_or_else. now rewrite orb_assoc.
Qed.

(** X15: handleOCRVerification always shows its toast and closes the OCR
    panel, and it asks the server to mark the document verified, once and
    for this document, exactly when at least five of the six comparisons
    (name, roll, document type, UIN, marks, date) agree: the rounded
    percentages are 0, 17, 33, 50, 67, 83, 100 and the threshold is 80.
    A document is thus verified automatically with one comparison, the
    student name for instance, failing. *)
Theorem auto_approval_needs_five_of_six
    (number : Type) (Number_toString : number -> jsstring)
    (data : ParsedData) (document : LegacyDocument number) :
  let agreeing := length (filter (fun b => b) (comparison Number_toString data document)) in
  let effects := handleOCRVerification Number_toString data document in
  matchPercentage Number_toString data document = nth agreeing [0; 17; 33; 50; 67; 83; 100] 0 /\
  filter is_update effects =
    (if 5 <=? agreeing then [UpdateStatus (doc_id document) (js "verified")] else []) /\
  firstn 3 effects =
    [ Toast (js "OCR Verification Complete")
            (js "Document verification: "
             ++ String_of_nat (matchPercentage Number_toString data document)
             ++ js "% match with stored data");
      SetShowOCR false; SetSelectedDocumentNull ].
Proof.
  cbv zeta. unfold handleOCRVerification, matchPercentage, comparison.
  generalize (opt_eqb (studentName data) (Some (student_name document))).
  generalize (opt_eqb (studentRoll data) (Some (student_roll document))).
  generalize (opt_eqb (courseName data) (Some (doc_type document))).
  generalize (opt_eqb (certificateNumber data) (Some (doc_uin document))
              || opt_eqb (uin data) (Some (doc_uin document))).
  generalize (opt_eqb (marks data) (option_map Number_toString (doc_marks document))).
  generalize (opt_eqb (dateIssued data) (Some (date_issued document))).
  intros b6 b5 b4 b3 b2 b1.
  destruct b1, b2, b3, b4, b5, b6; repeat split; reflexivity.
Qed.

(* ================================================================== *)
(** ** Further properties: what the capture groups hold *)

Lemma captures_from_refl (C : nat -> jsstring -> Prop) (x : MatchState) :
  captures_from C x x.
Proof. intros n v H. now left. Qed.

Lemma captures_from_trans (C : nat -> jsstring -> Prop) (x y z : MatchState) :
  captures_from C x y -> captures_from C y z -> captures_from C x z.
Proof.
  intros H1 H2 n v H. destruct (H2 n v H) as [H'|H']; [now apply H1 | now right].
Qed.

Lemma captures_from_mono (C D : nat -> jsstring -> Prop) (x y : MatchState) :
  (forall n v, C n v -> D n v) -> captures_from C x y -> captures_from D x y.
Proof. intros HCD H n v Hv. destruct (H n v Hv) as [H'|H']; [now left | right; auto]. Qed.

Lemma lookup_filter_some (keep : nat -> bool) (n : nat) (v : jsstring)
      (caps : list (nat * jsstring)) :
  lookup n (filter (fun p => keep (fst p)) caps) = Some v -> lookup n caps = Some v.
Proof.
  induction caps as [|[k u] caps IH]; [discriminate|].
  cbn [filter fst]. destruct (keep k) eqn:K; cbn [lookup].
  - destruct (k =? n); [tauto | exact IH].
  - destruct (k =? n) eqn:E; [|exact IH].
    apply Nat.eqb_eq in E. subst k. intros H. exfalso.
    clear IH. induction caps as [|[k' u'] caps IH']; [discriminate|].
    cbn [filter fst] in H. destruct (keep k') eqn:K'; [|now apply IH'].
    cbn [lookup] in H. destruct (k' =? n) eqn:E'; [|now apply IH'].
    apply Nat.eqb_eq in E'. congruence.
Qed.

Lemma captures_from_clear (C : nat -> jsstring -> Prop) (gs : list nat) (x : MatchState) :
  captures_from C x (clear_captures gs x).
Proof.
  intros n v H. left. cbn [clear_captures captures] in H.
  now apply (lookup_filter_some (fun k => negb (existsb (Nat.eqb k) gs))) in H.
Qed.

Lemma repeat_opt_captures (mm : Matcher) (L : jsstring -> Prop)
      (C : nat -> jsstring -> Prop) (gs : list nat) :
  capturing_matcher mm L C ->
  forall fuel max x c z, repeat_opt mm gs max fuel x c = Some z ->
    exists ws y, reaches x y (concat ws) /\ Forall L ws /\ captures_from C x y /\
                 c y = Some z.
Proof.
  intros Hmm.
  assert (Base : forall x (c : Continuation) z, c x = Some z ->
            exists ws y, reaches x y (concat ws) /\ Forall L ws /\ captures_from C x y /\
                         c y = Some z).
  { intros x c z H. exists [], x. split; [apply reaches_refl|].
    split; [constructor|]. split; [apply captures_from_refl | exact H]. }
  induction fuel as [|fuel IH]; intros max x c z H; cbn [repeat_opt] in H.
  - destruct (max_is_zero max); now apply Base.
  - destruct (max_is_zero max); [now apply Base|].
    match type of H with
    | match ?e with _ => _ end = _ => destruct e as [z'|] eqn:E
    end; [|now apply Base].
    injection H as ->. apply Hmm in E.
    destruct E as (w & y & Hr & Hw & Hs & Hc).
    destruct (endIndex y =? endIndex x); [discriminate|].
    apply IH in Hc. destruct Hc as (ws & y' & Hr' & Hws & Hs' & Hc).
    exists (w :: ws), y'. split; [|split; [|split]].
    + apply (reaches_trans (y := y)); [exact Hr | exact Hr'].
    + now constructor.
    + apply captures_from_trans with y; [|exact Hs'].
      apply captures_from_trans with (clear_captures gs x);
        [apply captures_from_clear | exact Hs].
    + exact Hc.
Qed.

Lemma repeat_min_captures (mm : Matcher) (L : jsstring -> Prop)
      (C : nat -> jsstring -> Prop) (gs : list nat) :
  capturing_matcher mm L C ->
  forall min max x c z, repeat_min mm gs min max x c = Some z ->
    exists ws y, reaches x y (concat ws) /\ Forall L ws /\ min <= length ws /\
                 captures_from C x y /\ c y = Some z.
Proof.
  intros Hmm. induction min as [|min IH]; intros max x c z H; cbn [repeat_min] in H.
  - apply (repeat_opt_captures gs Hmm) in H. destruct H as (ws & y & Hr & Hws & Hs & Hc).
    exists ws, y. repeat split; auto; try apply Hr. lia.
  - apply Hmm in H. destruct H as (w & y & Hr & Hw & Hs & Hc).
    apply IH in Hc. destruct Hc as (ws & y' & Hr' & Hws & Hlen & Hs' & Hc).
    exists (w :: ws), y'. split; [|split; [|split; [|split]]].
    + apply (reaches_trans (y := y)); [exact Hr | exact Hr'].
    + now constructor.
    + simpl. lia.
    + apply captures_from_trans with y; [|exact Hs'].
      apply captures_from_trans with (clear_captures gs x);
        [apply captures_from_clear | exact Hs].
    + exact Hc.
Qed.

(** A capture that a match leaves behind is a word of the body of its
    group. *)
Lemma m_captures (ic : bool) (r : regex) :
  capturing_matcher (m ic r) (lang ic r) (captured_by ic r).
Proof.
  induction r as [ | d | | inv atoms | r1 IH1 r2 IH2 | r1 IH1 r2 IH2 | r1 IH1 min max
                 | k r1 IH1 | r1 IH1 | | ];
    intros x c z H; cbn [m] in H.
  - exists [], x. split; [apply reaches_refl|]. split; [reflexivity|].
    split; [apply captures_from_refl | assumption].
  - destruct (rest x) as [|ch tl] eqn:E; [discriminate|].
    destruct (canonicalize ic ch =? canonicalize ic d)%N eqn:Ec; [|discriminate].
    exists [ch], (advance x tl). split; [split; [exact E | simpl; lia]|].
    split; [exists ch; split; [reflexivity | now apply N.eqb_eq]|].
    split; [intros n v Hv; now left | exact H].
  - destruct (rest x) as [|ch tl] eqn:E; [discriminate|].
    destruct (is_line_terminator ch) eqn:Ec; [discriminate|].
    exists [ch], (advance x tl). split; [split; [exact E | simpl; lia]|].
    split; [exists ch; now split|].
    split; [intros n v Hv; now left | exact H].
  - destruct (rest x) as [|ch tl] eqn:E; [discriminate|].
    destruct (class_matches ic inv atoms ch) eqn:Ec; [|discriminate].
    exists [ch], (advance x tl). split; [split; [exact E | simpl; lia]|].
    split; [exists ch; now split|].
    split; [intros n v Hv; now left | exact H].
  - apply IH1 in H. destruct H as (w1 & y1 & Hr1 & Hw1 & Hs1 & H).
    apply IH2 in H. destruct H as (w2 & y2 & Hr2 & Hw2 & Hs2 & H).
    exists (w1 ++ w2), y2. split; [|split; [|split]].
    + apply (reaches_trans (y := y1)); [exact Hr1 | exact Hr2].
    + now exists w1, w2.
    + apply captures_from_trans with y1.
      * eapply captures_from_mono; [|exact Hs1]. intros n v Hc. now left.
      * eapply captures_from_mono; [|exact Hs2]. intros n v Hc. now right.
    + exact H.
  - destruct (m ic r1 x c) as [z'|] eqn:E.
    + injection H as ->. apply IH1 in E. destruct E as (w & y & Hr & Hw & Hs & H).
      exists w, y. split; [exact Hr|]. split; [now left|]. split; [|exact H].
      eapply captures_from_mono; [|exact Hs]. intros n v Hc. now left.
    + apply IH2 in H. destruct H as (w & y & Hr & Hw & Hs & H).
      exists w, y. split; [exact Hr|]. split; [now right|]. split; [|exact H].
      eapply captures_from_mono; [|exact Hs]. intros n v Hc. now right.
  - apply (repeat_min_captures (groups r1) IH1) in H.
    destruct H as (ws & y & Hr & Hws & Hlen & Hs & H).
    exists (concat ws), y. split; [exact Hr|]. split; [now exists ws|]. now split.
  - apply IH1 in H. destruct H as (w & y & Hr & Hw & Hs & H).
    exists w, (set_capture k (firstn (endIndex y - endIndex x) (rest x)) y).
    split; [exact Hr|]. split; [exact Hw|]. split; [|exact H].
    intros n v Hv. cbn [set_capture captures lookup] in Hv.
    destruct (k =? n) eqn:E.
    + apply Nat.eqb_eq in E. injection Hv as <-. right. left. split; [exact E|].
      destruct Hr as [Hr1 Hr2]. rewrite Hr2, Hr1.
      replace (endIndex x + length w - endIndex x) with (length w) by lia.
      now rewrite firstn_app, Nat.sub_diag, firstn_all, app_nil_r.
    + destruct (Hs n v Hv) as [H'|H']; [now left | right; now right].
  - destruct (m ic r1 x Some); [discriminate|].
    exists [], x. split; [apply reaches_refl|]. split; [reflexivity|].
    split; [apply captures_from_refl | assumption].
  - destruct (endIndex x =? 0); [|discriminate].
    exists [], x. split; [apply reaches_refl|]. split; [reflexivity|].
    split; [apply captures_from_refl | assumption].
  - destruct (rest x) eqn:E; [|discriminate].
    exists [], x. split; [apply reaches_refl|]. split; [reflexivity|].
    split; [apply captures_from_refl | assumption].
Qed.

Lemma str_match_captured (s : jsstring) (re : RegExp) (ma : MatchArray) (n : nat)
      (v : jsstring) :
  str_match s re = Some ma -> group n ma = Some v ->
  captured_by (ignoreCase re) (source re) n v.
Proof.
  unfold str_match. generalize 0. induction s as [|a s IH]; intros i H Hv;
    cbn [exec_from] in H; destruct (match_at re i _) as [y|] eqn:E;
    try discriminate; try (now apply IH with (S i)).
  all: injection H as <-; unfold match_at in E; apply m_captures in E;
    destruct E as (w & y' & _ & _ & Hc & Hy); injection Hy as ->;
    unfold group in Hv; cbn [groupsOf] in Hv;
    destruct (Hc n v Hv) as [H'|H']; [discriminate H' | exact H'].
Qed.

Lemma atom_eqb_eq (a b : ClassAtom) : atom_eqb a b = true -> a = b.
Proof.
  destruct a, b; cbn [atom_eqb]; try discriminate; try reflexivity.
  - intros H. apply N.eqb_eq in H. now subst.
  - intros H. apply andb_prop in H. destruct H as [H1 H2].
    apply N.eqb_eq in H1. apply N.eqb_eq in H2. now subst.
Qed.

Lemma lang_class_only (ic : bool) (L : list ClassAtom) (r : regex) :
  class_only L r = true ->
  forall w, lang ic r w -> Forall (fun c => in_classes ic L c = true) w.
Proof.
  induction r as [ | d | | inv atoms | r1 IH1 r2 IH2 | r1 IH1 r2 IH2 | r1 IH1 min max
                 | k r1 IH1 | r1 IH1 | | ];
    cbn [class_only lang]; intros H w Hw; try discriminate.
  - subst w. constructor.
  - destruct inv; [discriminate|]. destruct Hw as (ch & -> & Hc).
    constructor; [|constructor]. unfold class_matches in Hc. cbn [xorb] in Hc.
    apply existsb_exists in Hc. destruct Hc as (a & Ha & Hm).
    rewrite forallb_forall in H. specialize (H a Ha).
    apply existsb_exists in H. destruct H as (b & Hb & Hab).
    apply atom_eqb_eq in Hab. subst b.
    apply existsb_exists. now exists a.
  - apply andb_prop in H. destruct H as [H1 H2].
    destruct Hw as (w1 & w2 & -> & Hw1 & Hw2). apply Forall_app. split; auto.
  - apply andb_prop in H. destruct H as [H1 H2]. destruct Hw as [Hw|Hw]; auto.
  - destruct Hw as (ws & -> & Hws & _). apply Forall_concat.
    eapply Forall_impl; [|exact Hws]. intros u Hu. now apply IH1.
  - now apply IH1.
Qed.

Lemma captured_class_only (ic : bool) (L : list ClassAtom) (n : nat) (r : regex) :
  group_class_only n L r = true ->
  forall v, captured_by ic r n v -> Forall (fun c => in_classes ic L c = true) v.
Proof.
  induction r as [ | d | | inv atoms | r1 IH1 r2 IH2 | r1 IH1 r2 IH2 | r1 IH1 min max
                 | k r1 IH1 | r1 IH1 | | ];
    cbn [group_class_only captured_by]; intros H v Hv; try contradiction.
  - apply andb_prop in H. destruct H as [H1 H2]. destruct Hv as [Hv|Hv]; auto.
  - apply andb_prop in H. destruct H as [H1 H2]. destruct Hv as [Hv|Hv]; auto.
  - now apply IH1.
  - apply andb_prop in H. destruct H as [H1 H2]. destruct Hv as [[-> Hv]|Hv].
    + rewrite Nat.eqb_refl in H1. now apply (lang_class_only ic L r1 H1).
    + now apply IH1.
  - now apply IH1.
Qed.

(* ================================================================== *)
(** ** Further properties: dateIssued in the primary extractor *)

Lemma usable_group_origin (mt : option MatchArray) (g : jsstring) :
  usable_group mt = Some g ->
  exists ma v, mt = Some ma /\ group 1 ma = Some v /\ g = trim v.
Proof.
  unfold usable_group. destruct mt as [ma|]; [|discriminate].
  destruct (group 1 ma) as [v|] eqn:G; [|now destruct (truthy None)].
  destruct (truthy (Some v)); [|discriminate].
  destruct (2 <? length (trim v)); [|discriminate].
  intros H. injection H as <-. now exists ma, v.
Qed.

Lemma try_lines_origin (field : Field) (ls : list jsstring) (ps : list RegExp) (v : jsstring) :
  try_lines field ls ps = Some v ->
  exists l p g, In l ls /\ In p ps /\ usable_group (str_match l p) = Some g /\
                v = cleanValue field g.
Proof.
  induction ls as [|l ls IH]; cbn [try_lines]; [discriminate|].
  destruct (try_patterns field l ps) as [value|] eqn:E.
  - intros H. injection H as <-. clear IH.
    assert (P : exists p g, In p ps /\ usable_group (str_match l p) = Some g /\
                            value = cleanValue field g).
    { revert E. induction ps as [|p ps IHp]; cbn [try_patterns]; [discriminate|].
      destruct (usable_group (str_match l p)) as [g|] eqn:U.
      - destruct (0 <? length (cleanValue field g)).
        + intros H. injection H as <-. exists p, g. repeat split; auto. now left.
        + intros H. destruct (IHp H) as (p' & g' & Hp & Hg). exists p', g'.
          split; [now right | exact Hg].
      - intros H. destruct (IHp H) as (p' & g' & Hp & Hg). exists p', g'.
        split; [now right | exact Hg]. }
    destruct P as (p & g & Hp & Hg & Hv). exists l, p, g. repeat split; auto. now left.
  - intros H. destruct (IH H) as (l' & p & g & Hl & Hrest). exists l', p, g.
    split; [now right | exact Hrest].
Qed.

Lemma primaryExtract_origin (ls : list jsstring) (f : Field) (v : jsstring) :
  get_field f (primaryExtract ls) = Some v ->
  exists ps l p g, In (f, ps) patterns /\ In l ls /\ In p ps /\
                   usable_group (str_match l p) = Some g /\ v = cleanValue f g.
Proof.
  unfold primaryExtract.
  assert (G : forall entries e,
             (forall entry, In entry entries -> In entry patterns) ->
             (forall f v, get_field f e = Some v ->
                exists ps l p g, In (f, ps) patterns /\ In l ls /\ In p ps /\
                                 usable_group (str_match l p) = Some g /\
                                 v = cleanValue f g) ->
             forall f v, get_field f (fold_left (extractField ls) entries e) = Some v ->
                exists ps l p g, In (f, ps) patterns /\ In l ls /\ In p ps /\
                                 usable_group (str_match l p) = Some g /\
                                 v = cleanValue f g).
  { induction entries as [|entry entries IH]; intros e Hsub He; [exact He|].
    cbn [fold_left]. apply IH; [intros x Hx; apply Hsub; now right|].
    unfold extractField.
    destruct (try_lines (fst entry) ls (snd entry)) as [value|] eqn:E; [|exact He].
    intros f' v'. rewrite get_set. destruct (field_eqb (fst entry) f') eqn:Q; [|apply He].
    apply field_eqb_eq in Q. subst f'. intros H. injection H as <-.
    apply try_lines_origin in E. destruct E as (l & p & g & Hl & Hp & Hg & Hv).
    exists (snd entry), l, p, g.
    split; [|now repeat split].
    apply Hsub. left. now destruct entry. }
  apply G; [auto|]. intros f' v'. destruct f'; discriminate.
Qed.

Lemma split_go_chars (P : jschar -> Prop) (re : RegExp) (s : jsstring) :
  forall q skip cur, Forall P cur -> Forall P s ->
    Forall (Forall P) (split_go re q skip cur s).
Proof.
  induction s as [|ch s IH]; intros q skip cur Hcur Hs; cbn [split_go].
  - now repeat constructor.
  - pose proof (Forall_inv Hs) as Hch. apply Forall_inv_tail in Hs.
    destruct skip as [|k]; [|now apply IH].
    destruct (match_at re q (ch :: s)) as [y|].
    + destruct (endIndex y =? q).
      * destruct cur as [|c0 cur0].
        -- apply IH; [now repeat constructor | exact Hs].
        -- constructor; [exact Hcur|]. apply IH; [now repeat constructor | exact Hs].
      * constructor; [exact Hcur|]. apply IH; [constructor | exact Hs].
    + apply IH; [|exact Hs]. apply Forall_app. split; [exact Hcur | now repeat constructor].
Qed.

(** The pieces of a split hold characters of the text only. *)
Lemma split_chars (P : jschar -> Prop) (re : RegExp) (s : jsstring) :
  Forall P s -> Forall (Forall P) (split re s).
Proof.
  intros H. unfold split. destruct s as [|c s].
  - destruct (match_at re 0 []); now repeat constructor.
  - apply split_go_chars; [constructor | exact H].
Qed.

Lemma includes_head_in (s p : jsstring) (c : jschar) :
  includes s (c :: p) = true -> In c s.
Proof.
  induction s as [|x s IH]; cbn [includes starts_with]; [discriminate|].
  intros H. apply orb_prop in H. destruct H as [H|H].
  - apply andb_prop in H. destruct H as [H _]. apply N.eqb_eq in H. now left.
  - right. now apply IH.
Qed.

Lemma findIndex_none {A} (p : A -> bool) (l : list A) :
  (forall x, In x l -> p x = false) -> findIndex p l = None.
Proof.
  induction l as [|x l IH]; intros H; [reflexivity|]. cbn [findIndex].
  rewrite (H x) by now left. rewrite IH; [reflexivity|].
  intros y Hy. apply H. now right.
Qed.

Lemma letter_variants (c : jschar) :
  is_letter c = true ->
  in_range 65 122 c = true /\ in_range 65 122 (to_upper_char c) = true /\
  in_range 65 122 (to_lower_char c) = true.
Proof.
  unfold is_letter, to_upper_char, to_lower_char, is_upper, is_lower, in_range.
  intros H.
  destruct ((65 <=? c)%N && (c <=? 90)%N) eqn:U;
    destruct ((97 <=? c)%N && (c <=? 122)%N) eqn:W; cbn [orb] in H;
    try discriminate H; split_bools;
    repeat split; apply andb_true_intro; split; apply N.leb_le; lia.
Qed.

Lemma date_atom_no_letter (a : ClassAtom) (d : jschar) :
  In a date_atoms -> in_range 65 122 d = true -> atom_has a d = false.
Proof.
  unfold date_atoms, d0_9, c_, r_. cbn [In]. intros Ha Hd.
  destruct (atom_has a d) eqn:E; [|reflexivity]. exfalso.
  repeat (destruct Ha as [<-|Ha];
    [cbn [atom_has] in E; try (apply is_space_not_letter in E; congruence);
     unfold in_range in *; chr_values; split_bools; lia|]).
  destruct Ha.
Qed.

Lemma date_class_no_letter (ic : bool) (c : jschar) :
  in_classes ic date_atoms c = true -> is_letter c = false.
Proof.
  intros H. destruct (is_letter c) eqn:L; [|reflexivity]. exfalso.
  destruct (letter_variants c L) as (L1 & L2 & L3).
  apply existsb_exists in H. destruct H as (a & Ha & Hm).
  unfold atom_matches in Hm.
  rewrite (@date_atom_no_letter a _ Ha L1), (@date_atom_no_letter a _ Ha L2),
    (@date_atom_no_letter a _ Ha L3) in Hm.
  now destruct ic.
Qed.

Lemma toLowerCase_no_letter (s : jsstring) :
  Forall (fun c => is_letter c = false) s -> toLowerCase s = s.
Proof.
  induction 1 as [|c s Hc _ IH]; [reflexivity|]. cbn [toLowerCase map].
  unfold toLowerCase in IH. rewrite IH. f_equal.
  unfold to_lower_char. unfold is_letter in Hc.
  apply orb_false_elim in Hc. destruct Hc as [Hc _]. now rewrite Hc.
Qed.

(** On a capture without letters the month look-up of the comma branch
    fails, and the clean-up leaves the capture as it is. *)
Lemma cleanValue_date_no_letter (g : jsstring) :
  Forall (fun c => is_letter c = false) g ->
  cleanValue FDateIssued g =
  if includes g (js ",")
  then g
  else filter (fun c => is_digit c || (c =? chr "/")%N || (c =? chr "-")%N
                        || (c =? chr ".")%N) g.
Proof.
  intros H. cbn [cleanValue]. destruct (includes g (js ",")).
  - rewrite (toLowerCase_no_letter H).
    pose proof (split_chars (re (plus (cls [CSpace; c_ ","]))) H) as S.
    destruct (split (re (plus (cls [CSpace; c_ ","]))) g) as [|p0 [|p1 [|p2 rest]]];
      try reflexivity.
    apply Forall_inv in S.
    rewrite findIndex_none; [reflexivity|].
    intros month Hm. destruct (includes p0 month) eqn:I; [|reflexivity]. exfalso.
    assert (F : exists l tl, month = l :: tl /\ is_letter l = true).
    { unfold monthNames in Hm. cbn [map In] in Hm.
      repeat (destruct Hm as [<-|Hm]; [eexists _, _; split; [reflexivity|reflexivity]|]).
      destruct Hm. }
    destruct F as (l & tl & -> & Hl).
    apply includes_head_in in I. rewrite Forall_forall in S.
    specialize (S l I). congruence.
  - rewrite replace_all_negated_class. apply filter_ext. intros c.
    cbn [existsb]. unfold c_. cbn [atom_has]. rewrite orb_false_r.
    now rewrite !orb_assoc.
Qed.

Lemma dateIssued_capture_no_letter (line : jsstring) (pattern : RegExp) (g : jsstring) :
  In pattern dateIssued_patterns ->
  usable_group (str_match line pattern) = Some g ->
  Forall (fun c => is_letter c = false) g.
Proof.
  intros Hp Hg. apply usable_group_origin in Hg.
  destruct Hg as (ma & v & Hm & Hv & ->). apply Forall_trim.
  pose proof (@str_match_captured _ _ _ _ _ Hm Hv) as C.
  assert (K : group_class_only 1 date_atoms (source pattern) = true).
  { unfold dateIssued_patterns in Hp. cbn [In] in Hp.
    repeat (destruct Hp as [<-|Hp]; [vm_compute; reflexivity|]). destruct Hp. }
  apply (captured_class_only _ _ _ _ K) in C.
  eapply Forall_impl; [|exact C]. intros c. apply date_class_no_letter.
Qed.

(** X16: the dateIssued that the primary extractor stores is taken from a
    capture of one of its eight patterns on the cleaned text; no such
    capture holds a letter, so the month look-up of the comma branch
    (lines 205-217) never succeeds: a capture with a comma is stored as
    it is, never as a converted DD/MM/YYYY date, and any other capture
    is stored with everything but digits, [/], [-] and [.] removed. *)
Theorem primary_dateIssued_is_never_converted (text : jsstring) :
  match get_field FDateIssued (primaryExtract (lines_of (cleanedText text))) with
  | Some v =>
      exists pattern g,
        In pattern dateIssued_patterns /\
        usable_group (str_match (cleanedText text) pattern) = Some g /\
        forallb (fun c => negb (is_letter c)) g = true /\
        v = if includes g (js ",")
            then g
            else filter (fun c => is_digit c || (c =? chr "/")%N || (c =? chr "-")%N
                                  || (c =? chr ".")%N) g
  | None => True
  end.
Proof.
  destruct (get_field FDateIssued (primaryExtract (lines_of (cleanedText text))))
    as [v|] eqn:E; [|exact I].
  apply primaryExtract_origin in E.
  destruct E as (ps & l & p & g & Hps & Hl & Hp & Hg & ->).
  assert (Eps : ps = dateIssued_patterns).
  { unfold patterns in Hps. cbn [In] in Hps.
    repeat (destruct Hps as [Hps|Hps]; [try discriminate Hps; now injection Hps|]).
    destruct Hps. }
  subst ps.
  assert (El : l = cleanedText text).
  { rewrite lines_of_cleanedText in Hl. destruct (cleanedText text); [destruct Hl|].
    destruct Hl as [<-|[]]. reflexivity. }
  subst l.
  pose proof (@dateIssued_capture_no_letter _ _ _ Hp Hg) as N.
  exists p, g. repeat split; auto.
  - apply forallb_forall. intros c Hc. rewrite Forall_forall in N.
    now rewrite (N c Hc).
  - now apply cleanValue_date_no_letter.
Qed.
